(** * src-cli: [src repos add-kvp] and [src snapshot databases]

    A shallow embedding of the two command handlers of
    [cmd/src/repos_add_kvp.go] together with the part of Go's [flag]
    package they rely on, and the properties of the handlers that the
    specification states.

    Go strings are byte strings, modelled as [string]; Go maps are [gmap]s;
    a nil-able [*string] is an [option string].  Calls to collaborators
    outside the two handlers (the API client, the file system, the YAML
    decoder, the output library) are recorded as events of a trace, and their
    answers are taken from a [World] of oracles. *)

From stdpp Require Import gmap strings list fin_maps sorting.
From Stdlib Require Import String Ascii ZArith.

Local Open Scope string_scope.
Local Open Scope Z_scope.

(** The line feed, written ["\n"] in Go. *)
Definition LF : string := String (ascii_of_nat 10) EmptyString.

(* ===================================================================== *)
(** ** Go's [flag] package                                                *)
(* ===================================================================== *)

Module flag.

(** [flag.Value] is an interface with [String()], [Set(string) error] and,
    for boolean flags, [IsBoolFlag()].  A value is represented by what
    [String()] returns; [Set] answers the new representation, or [None] for
    an error. *)
Record Value := mkValue {
  Value_String : string;
  Value_Set : string → option string;
  Value_IsBoolFlag : bool;
}.

(** [Set] on a value: the stored representation changes, the methods stay. *)
Definition Value_update (v : Value) (s : string) : option Value :=
  match Value_Set v s with
  | Some s' => Some (mkValue s' (Value_Set v) (Value_IsBoolFlag v))
  | None => None
  end.

(** [stringValue]: [Set] stores its argument and never fails. *)
Definition stringValue (s : string) : Value := mkValue s Some false.

(** [strconv.ParseBool] followed by [strconv.FormatBool]. *)
Definition ParseBool (s : string) : option string :=
  if bool_decide (s ∈ ["1"; "t"; "T"; "TRUE"; "true"; "True"]) then Some "true"
  else if bool_decide (s ∈ ["0"; "f"; "F"; "FALSE"; "false"; "False"]) then Some "false"
  else None.

Definition boolValue (b : bool) : Value :=
  mkValue (if b then "true" else "false") ParseBool true.

Record Flag := mkFlag {
  Name : string;
  Usage : string;
  FValue : Value;
  DefValue : string;
}.

Inductive ErrorHandling := ContinueOnError | ExitOnError | PanicOnError.

(** The errors of [parseOne]; [ErrHelp] is the package's sentinel. *)
Inductive ParseError :=
| ErrHelp
| BadFlagSyntax (s : string)
| NotDefined (name : string)
| InvalidBooleanValue (value name : string)
| InvalidBooleanFlag (name : string)
| NeedsArgument (name : string)
| InvalidValue (value name : string).

(** [actual] holds pointers to the flags of [formal]; a flag's value changes
    only in [parseOne], which stores the flag in both maps, so the two
    copies of the model never disagree. *)
Record FlagSet := mkFlagSet {
  name : string;
  errorHandling : ErrorHandling;
  formal : gmap string Flag;
  actual : gmap string Flag;
  args : list string;
}.

Definition NewFlagSet (n : string) (eh : ErrorHandling) : FlagSet :=
  mkFlagSet n eh ∅ ∅ [].

(** [FlagSet.Var].  Go panics when the name is already registered, which
    ends the program in [init]; in a program that reaches a handler the
    names are distinct, and the model leaves the set as it is. *)
Definition Var (f : FlagSet) (value : Value) (n usage : string) : FlagSet :=
  match formal f !! n with
  | Some _ => f
  | None =>
      mkFlagSet (name f) (errorHandling f)
        (<[n := mkFlag n usage value (Value_String value)]> (formal f))
        (actual f) (args f)
  end.

(** [FlagSet.String]: registers a string flag; the pointer it returns is
    modelled by the flag's name, see [deref]. *)
Definition String (f : FlagSet) (n value usage : string) : FlagSet :=
  Var f (stringValue value) n usage.

(** Reading through the pointer returned by [FlagSet.String]. *)
Definition deref (f : FlagSet) (n : string) : string :=
  match formal f !! n with
  | Some fl => Value_String (FValue fl)
  | None => ""
  end.

Definition byteAt (s : string) (i : nat) : ascii :=
  match String.get i s with Some c => c | None => zero end.

(** The loop [for i := 1; i < len(name); i++] of [parseOne] looks for the
    first ['='] that is not the first byte. [cutAtEq] finds the first ['=']
    of a string and splits there. *)
Fixpoint cutAtEq (s : string) : option (string * string) :=
  match s with
  | EmptyString => None
  | String.String c rest =>
      if Ascii.eqb c "=" then Some (EmptyString, rest)
      else match cutAtEq rest with
           | Some (b, a) => Some (String.String c b, a)
           | None => None
           end
  end.

Definition splitNameValue (nm : string) : string * bool * string :=
  match nm with
  | EmptyString => (nm, false, "")
  | String.String c rest =>
      match cutAtEq rest with
      | Some (b, a) => (String.String c b, true, a)
      | None => (nm, false, "")
      end
  end.

Definition withArgs (f : FlagSet) (a : list string) : FlagSet :=
  mkFlagSet (name f) (errorHandling f) (formal f) (actual f) a.

(** [flag.Value.Set(value)] succeeded: the flag's value is the new one, and
    [f.actual[name] = flag]. *)
Definition setFlag (f : FlagSet) (n : string) (fl : Flag) (v : Value) : FlagSet :=
  let fl' := mkFlag (Name fl) (Usage fl) v (DefValue fl) in
  mkFlagSet (name f) (errorHandling f)
    (<[n := fl']> (formal f)) (<[n := fl']> (actual f)) (args f).

(** [FlagSet.parseOne]. *)
Definition parseOne (f : FlagSet) : FlagSet * bool * option ParseError :=
  match args f with
  | [] => (f, false, None)
  | s :: rest =>
      if (String.length s <? 2)%nat || negb (Ascii.eqb (byteAt s 0) "-")
      then (f, false, None)
      else
        let numMinuses := if Ascii.eqb (byteAt s 1) "-" then 2%nat else 1%nat in
        if (numMinuses =? 2)%nat && (String.length s =? 2)%nat
        then (withArgs f rest, false, None)  (* "--" terminates the flags *)
        else
          let nm := substring numMinuses (String.length s - numMinuses) s in
          if (String.length nm =? 0)%nat
             || Ascii.eqb (byteAt nm 0) "-" || Ascii.eqb (byteAt nm 0) "="
          then (f, false, Some (BadFlagSyntax s))
          else
            (* it's a flag. does it have an argument? *)
            let f := withArgs f rest in
            let '(nm, hasValue, value) := splitNameValue nm in
            match formal f !! nm with
            | None =>
                if String.eqb nm "help" || String.eqb nm "h"
                then (f, false, Some ErrHelp)
                else (f, false, Some (NotDefined nm))
            | Some fl =>
                if Value_IsBoolFlag (FValue fl) then
                  (* special case: doesn't need an arg *)
                  if hasValue then
                    match Value_update (FValue fl) value with
                    | None => (f, false, Some (InvalidBooleanValue value nm))
                    | Some v => (setFlag f nm fl v, true, None)
                    end
                  else
                    match Value_update (FValue fl) "true" with
                    | None => (f, false, Some (InvalidBooleanFlag nm))
                    | Some v => (setFlag f nm fl v, true, None)
                    end
                else
                  (* It must have a value, which might be the next argument. *)
                  let '(hasValue, value, f) :=
                    match hasValue, args f with
                    | false, v :: rest' => (true, v, withArgs f rest')
                    | _, _ => (hasValue, value, f)
                    end in
                  if negb hasValue then (f, false, Some (NeedsArgument nm))
                  else
                    match Value_update (FValue fl) value with
                    | None => (f, false, Some (InvalidValue value nm))
                    | Some v => (setFlag f nm fl v, true, None)
                    end
            end
  end.

(** The loop of [FlagSet.Parse]: [parseOne] until it reports no flag seen.
    Every round that continues consumes an argument, so [fuel] above the
    number of arguments is never used up ([parseLoop_fuel]). *)
Fixpoint parseLoop (fuel : nat) (f : FlagSet) : option (FlagSet * option ParseError) :=
  match fuel with
  | O => None
  | S fuel' =>
      let '(f', seen, err) := parseOne f in
      if seen then parseLoop fuel' f' else Some (f', err)
  end.

(** How a call that may end the process comes back. *)
Inductive Ending :=
| Returned (err : option ParseError)
| Exited (code : Z)
| Panicked (err : ParseError).

(** [FlagSet.Parse]: on an error the [errorHandling] of the set decides;
    with [ExitOnError] the process exits with status 0 after [-h]/[-help]
    and with status 2 otherwise. *)
Definition Parse (f : FlagSet) (arguments : list string) : FlagSet * Ending :=
  match parseLoop (S (List.length arguments)) (withArgs f arguments) with
  | Some (f', None) => (f', Returned None)
  | Some (f', Some err) =>
      match errorHandling f' with
      | ContinueOnError => (f', Returned (Some err))
      | ExitOnError =>
          match err with
          | ErrHelp => (f', Exited 0)
          | _ => (f', Exited 2)
          end
      | PanicOnError => (f', Panicked err)
      end
  | None => (f, Returned None)
  end.

(** [sortFlags]: the flags of a map in lexicographical order of their
    names. *)
Definition sortFlags (m : gmap string Flag) : list Flag :=
  merge_sort (λ a b : Flag, Is_true (String.leb (Name a) (Name b)))
    (snd <$> map_to_list m).

(** [FlagSet.Visit] calls [fn] for each flag that has been set, in
    lexicographical order; [fn] works on the state [S] it closes over. *)
Definition Visit {S : Type} (f : FlagSet) (fn : Flag → S → S) (s : S) : S :=
  foldl (λ st fl, fn fl st) s (sortFlags (actual f)).

(** The value [String()] gives for a flag. *)
Definition str (fl : Flag) : string := Value_String (FValue fl).

(** An argument that [parseOne] does not take for a flag: shorter than two
    bytes, or not starting with ['-']. *)
Definition nonFlag (s : string) : bool :=
  (String.length s <? 2)%nat || negb (Ascii.eqb (byteAt s 0) "-").

(** Well-formed flag sets: a flag is stored under its name, and a flag
    that was set is the registered one. *)
Definition wf (f : FlagSet) : Prop :=
  (∀ n fl, formal f !! n = Some fl → Name fl = n) ∧
  (∀ n fl, actual f !! n = Some fl → formal f !! n = Some fl).

(** Command lines made of arguments [-name=value].  A plain name is not
    empty, starts with neither ['-'] nor ['='], and has no ['='] further
    on. *)
Fixpoint noEq (s : string) : bool :=
  match s with
  | EmptyString => true
  | String.String c rest => negb (Ascii.eqb c "=") && noEq rest
  end.

Definition plainName (n : string) : bool :=
  match n with
  | EmptyString => false
  | String.String c rest => negb (Ascii.eqb c "-") && negb (Ascii.eqb c "=") && noEq rest
  end.

Definition assignArg (nv : string * string) : string :=
  "-" +:+ nv.1 +:+ "=" +:+ nv.2.

(** Arguments that [Parse] leaves alone: none, or a first one that is not
    of the form of a flag. *)
Definition positional (tail : list string) : bool :=
  match tail with
  | [] => true
  | a :: _ => nonFlag a
  end.

(** The value the last assignment to [n] gives, if there is one. *)
Fixpoint lastValue (n : string) (asg : list (string * string)) : option string :=
  match asg with
  | [] => None
  | nv :: rest =>
      match lastValue n rest with
      | Some v => Some v
      | None => if String.eqb nv.1 n then Some nv.2 else None
      end
  end.

(** A flag whose value is a [stringValue]. *)
Definition isStringFlag (fl : Flag) : Prop :=
  Value_IsBoolFlag (FValue fl) = false ∧ ∀ s, Value_Set (FValue fl) s = Some s.

(** Every assignment of [asg] names a registered string flag by a plain
    name. *)
Definition okFlags (f : FlagSet) (asg : list (string * string)) : Prop :=
  ∀ nv, nv ∈ asg →
    plainName nv.1 = true ∧ ∃ fl, formal f !! nv.1 = Some fl ∧ isStringFlag fl.

End flag.

(* ===================================================================== *)
(** ** Errors and the effects of a handler                                *)
(* ===================================================================== *)

(** Error values.  [Newf] and [Wrapf] keep the format and its argument
    apart: the verbs used are [%q] on a string.  [Foreign] stands for an
    error made by a collaborator (API client, file system, YAML decoder). *)
Module errors.

Inductive error :=
| New (msg : string)
| Newf (format : string) (a : string)
| Wrap (cause : error) (msg : string)
| Wrapf (cause : error) (format : string) (a : string)
| FlagError (e : flag.ParseError)
| Foreign (msg : string).

End errors.

(** How far a handler got: still running with a value, returned (with an
    error or with [nil]), or the process ended inside a call. *)
Inductive Result (A : Type) :=
| Continue (a : A)
| Return (err : option errors.error)
| OsExit (code : Z)
| Panic.

Arguments Continue {A} a.
Arguments Return {A} err.
Arguments OsExit {A} code.
Arguments Panic {A}.

(** A handler run: the calls made to the outside, in order, and the result. *)
Definition Run (E A : Type) : Type := list E * Result A.

#[global] Instance Run_ret {E} : MRet (Run E) := λ A a, ([], Continue a).

#[global] Instance Run_bind {E} : MBind (Run E) := λ A B k m,
  match m with
  | (t, Continue a) => ((t ++ (k a).1)%list, (k a).2)
  | (t, Return err) => (t, Return err)
  | (t, OsExit code) => (t, OsExit code)
  | (t, Panic) => (t, Panic)
  end.

Definition emit {E} (e : E) : Run E unit := ([e], Continue tt).
Definition return_ {E A} (err : option errors.error) : Run E A := ([], Return err).

Definition trace {E A} (r : Run E A) : list E := r.1.
Definition result {E A} (r : Run E A) : Result A := r.2.

(** [if err := flagSet.Parse(args); err != nil { return err }] *)
Definition parse {E} (f : flag.FlagSet) (args : list string) : Run E flag.FlagSet :=
  match flag.Parse f args with
  | (f', flag.Returned None) => mret f'
  | (_, flag.Returned (Some err)) => return_ (Some (errors.FlagError err))
  | (_, flag.Exited code) => ([], OsExit code)
  | (_, flag.Panicked _) => ([], Panic)
  end.

(* ===================================================================== *)
(** ** [src repos add-kvp]                                                *)
(* ===================================================================== *)

Module add_kvp.

(** A value of a [map[string]interface{}]: a string or a [*string]. *)
Inductive any :=
| AString (s : string)
| APtrString (p : option string).

(** What [encoding/json] writes for a variable: a nil pointer is [null], a
    pointer to a string is that string. *)
Inductive json := JNull | JString (s : string).

Definition marshal (a : any) : json :=
  match a with
  | AString s => JString s
  | APtrString None => JNull
  | APtrString (Some s) => JString s
  end.

Inductive Event :=
| EvDo (query : string) (vars : gmap string any)  (* client.NewRequest(query, vars).Do *)
| EvPrintf (s : string).                          (* fmt.Printf *)

(** The API client: what [Do] answers for a request. *)
Record World := mkWorld {
  Do : string → gmap string any → bool * option errors.error;
}.

Definition query : string :=
"mutation addKVP(
  $repo: ID!,
  $key: String!,
  $value: String,
) {
  addRepoKeyValuePair(
    repo: $repo,
    key: $key,
    value: $value,
  ) {
    alwaysNil
  }
}".

(** The map literal given to [client.NewRequest]:
    ["repo": *repoFlag, "key": *keyFlag, "value": valueFlag]. *)
Definition variables (repo key : string) (value : option string) : gmap string any :=
  <["repo" := AString repo]>
    (<["key" := AString key]>
       (<["value" := APtrString value]> ∅)).

Section handler.

(** The flags [api.NewFlags] registers live in [internal/api]; they are a
    parameter here. *)
Variable apiFlags : list flag.Flag.

Definition api_NewFlags (f : flag.FlagSet) : flag.FlagSet :=
  foldl (λ f fl, flag.Var f (flag.FValue fl) (flag.Name fl) (flag.Usage fl)) f apiFlags.

(** The flag set as [init] leaves it. *)
Definition flagSet : flag.FlagSet :=
  let flagSet := flag.NewFlagSet "add-kvp" flag.ExitOnError in
  let flagSet := flag.String flagSet "repo" "" "The ID of the repo to add the key-value pair to (required)" in
  let flagSet := flag.String flagSet "key" "" "The name of the key to add (required)" in
  let flagSet := flag.String flagSet "value" "" "The value associated with the key. Defaults to null." in
  api_NewFlags flagSet.

(** The function given to [flagSet.Visit]; it assigns the two variables
    [keyFlag] and [valueFlag] of the handler. *)
Definition visitor (f : flag.Flag) (st : option string * option string)
  : option string * option string :=
  let '(keyFlag, valueFlag) := st in
  let keyFlag :=
    if String.eqb (flag.Name f) "key"
    then Some (flag.Value_String (flag.FValue f)) else keyFlag in
  let valueFlag :=
    if String.eqb (flag.Name f) "value"
    then Some (flag.Value_String (flag.FValue f)) else valueFlag in
  (keyFlag, valueFlag).

Variable w : World.

(** The handler. [cfg.apiClient(apiFlags, flagSet.Output())] only builds the
    client; what the client answers is [Do w]. *)
Definition handler (args : list string) : Run Event unit :=
  fs ← parse flagSet args;
  if String.eqb (flag.deref fs "repo") ""
  then return_ (Some (errors.New "error: repo is required"))
  else
    let '(keyFlag, valueFlag) := flag.Visit fs visitor (None, None) in
    match keyFlag with
    | None => return_ (Some (errors.New "error: key is required"))
    | Some key =>
        let vars := variables (flag.deref fs "repo") key valueFlag in
        emit (EvDo query vars);;
        let '(ok, err) := Do w query vars in
        if bool_decide (err ≠ None) || negb ok then return_ err
        else
          match valueFlag with
          | Some value =>
              emit (EvPrintf ("Key-value pair '" +:+ key +:+ ":" +:+ value +:+ "' created." +:+ LF))
          | None =>
              emit (EvPrintf ("Key-value pair '" +:+ key +:+ ":<nil>' created." +:+ LF))
          end;;
          return_ None
    end.

End handler.

(** The variables of the requests a run sent, and the lines it printed. *)
Definition requests (r : Run Event unit) : list (gmap string any) :=
  omap (λ e, match e with EvDo _ vars => Some vars | _ => None end) (trace r).

Definition printed (r : Run Event unit) : list string :=
  omap (λ e, match e with EvPrintf s => Some s | _ => None end) (trace r).

(** What the visitor does to one of its two variables: the flag of that
    name assigns it. *)
Definition assign (n : string) (o : option string) (fl : flag.Flag) : option string :=
  if String.eqb (flag.Name fl) n then Some (flag.str fl) else o.

(** For concrete runs: a client whose requests all succeed, and the two
    flags as they are once set to [v]. *)
Definition world_ok : World := mkWorld (λ _ _, (true, None)).

(** For concrete runs: a boolean flag such as [api.NewFlags] may register. *)
Definition apiFlags_example : list flag.Flag :=
  [flag.mkFlag "trace" "Log the trace ID for requests." (flag.boolValue false) "false"].

(** For concrete runs: a client that cannot reach the server. *)
Definition world_down : World :=
  mkWorld (λ _ _, (false, Some (errors.Foreign "connection refused"))).

Definition keyFlag_of (v : string) : flag.Flag :=
  flag.mkFlag "key" "The name of the key to add (required)" (flag.stringValue v) "".

Definition valueFlag_of (v : string) : flag.Flag :=
  flag.mkFlag "value" "The value associated with the key. Defaults to null."
    (flag.stringValue v) "".

End add_kvp.

(* ===================================================================== *)
(** ** [internal/pgdump]                                                  *)
(* ===================================================================== *)

Module pgdump.

(** [pgdump.Target]; the field [target] is Go's [Target]. *)
Record Target := mkTarget {
  target : string;
  DBName : string;
  Username : string;
  Password : string;
}.

Record Targets := mkTargets {
  Primary : Target;
  CodeIntel : Target;
  CodeInsights : Target;
}.

(** [type CommandBuilder func(Target) (string, error)] *)
Definition CommandBuilder : Type := Target → string * option errors.error.

(** Modelled from the spec: [pgdump.Command] is not among the sources. The
    specification asks for a [pg_dump] invocation that embeds the database
    name, the username and the password as connection parameters; this
    one passes the password in the environment and the other two as
    options. *)
Definition Command (t : Target) : string :=
  "PGPASSWORD=" +:+ Password t +:+ " pg_dump --username=" +:+ Username t
    +:+ " --dbname=" +:+ DBName t.

(** Modelled from the spec: [pgdump.BuildCommands] is not among the sources.
    The specification has one command rendered per logical database with the
    selected template, in the fixed order primary, code-intelligence,
    code-insights; the first failure of the template ends the rendering. *)
Definition BuildCommands (outDir : string) (commandBuilder : CommandBuilder)
    (targets : Targets) : errors.error + list string :=
  foldr (λ t acc,
           match commandBuilder t, acc with
           | (_, Some err), _ => inl err
           | (_, None), inl err => inl err
           | (c, None), inr cs => inr (c :: cs)
           end)
        (inr []) [Primary targets; CodeIntel targets; CodeInsights targets].

End pgdump.

(* ===================================================================== *)
(** ** [src snapshot databases]                                           *)
(* ===================================================================== *)

Module snapshot_databases.

Import pgdump.

(** Lines of the output library, kept as the call that makes them. *)
Inductive emoji := EmojiInfo | EmojiSuccess.
Inductive style := StyleSuggestion.

Inductive FancyLine :=
| Emoji (e : emoji) (s : string)
| Emojif (e : emoji) (format a : string)
| Styledf (st : style) (format : string).

Inductive Event :=
| EvWriteLine (l : FancyLine)            (* out.WriteLine *)
| EvOpen (path : string)                 (* os.Open *)
| EvDecode (file : string)               (* yaml.NewDecoder(f).Decode *)
| EvBuildCommands (outDir : string) (targets : Targets)  (* pgdump.BuildCommands *)
| EvMkdirAll (path : string) (perm : Z)  (* os.MkdirAll *)
| EvBlock (l : FancyLine)                (* out.Block *)
| EvBlockWrite (s : string)              (* b.Write *)
| EvBlockClose.                          (* b.Close *)

(** The file system and the YAML decoder: a file is given by its contents,
    [Decode] fills the [Targets] it is handed. *)
Record World := mkWorld {
  Open : string → errors.error + string;
  Decode : string → Targets → errors.error + Targets;
  MkdirAll : string → Z → option errors.error;
}.

(** [os.ModePerm], octal 777. *)
Definition ModePerm : Z := 511.

(** [predefinedDatabaseDumpTargets] is based on default Sourcegraph
    configurations. *)
Definition predefinedDatabaseDumpTargets : gmap string Targets :=
  <["local" := mkTargets (mkTarget "" "sg" "sg" "sg")
                         (mkTarget "" "sg" "sg" "sg")
                         (mkTarget "" "postgres" "postgres" "password")]>
  (<["docker" := mkTargets (mkTarget "pgsql" "sg" "sg" "sg")
                           (mkTarget "codeintel-db" "sg" "sg" "sg")
                           (mkTarget "codeinsights-db" "postgres" "postgres" "password")]>
  (<["k8s" := mkTargets (mkTarget "statefulset/pgsql" "sg" "sg" "sg")
                        (mkTarget "statefulset/codeintel-db" "sg" "sg" "sg")
                        (mkTarget "statefulset/codeinsights-db" "postgres" "postgres" "password")]>
   ∅)).

(** The flag set as [init] leaves it. *)
Definition flagSet : flag.FlagSet :=
  let flagSet := flag.NewFlagSet "databases" flag.ExitOnError in
  flag.String flagSet "targets" "auto"
    "predefined targets ('docker' or 'k8s'), or a custom targets.yaml file".

(** [var builder string; if len(args) > 0 { builder = args[0] }] *)
Definition builder_of (args : list string) : string :=
  match args with
  | a :: _ => a
  | [] => ""
  end.

(** [strings.Join] *)
Definition Join (elems : list string) (sep : string) : string :=
  String.concat sep elems.

Section handler.

(** [pgdump.Command], [pgdump.BuildCommands] and the constant
    [srcSnapshotDir] are declared outside the sources at hand; the handler
    is modelled for any of them. *)
Variable Command : Target → string.
Variable BuildCommands : string → CommandBuilder → Targets → errors.error + list string.
Variable srcSnapshotDir : string.

(** The three closures of the [switch]. *)
Definition commandBuilder_pg_dump : CommandBuilder := λ t,
  let cmd := Command t in
  if negb (String.eqb (target t) "")
  then (cmd +:+ " --host=" +:+ target t, None)
  else (cmd, None).

Definition commandBuilder_docker : CommandBuilder := λ t,
  ("docker exec -it " +:+ target t +:+ " sh -c '" +:+ Command t +:+ "'", None).

Definition commandBuilder_kubectl : CommandBuilder := λ t,
  ("kubectl exec -it " +:+ target t +:+ " -- bash -c '" +:+ Command t +:+ "'", None).

(** [switch builder]: the target key and the command builder it leaves, or
    the early return of its [default] case. *)
Definition switch_builder {E} (builder : string) (targetKey : string)
  : Run E (string * CommandBuilder) :=
  if String.eqb builder "pg_dump" || String.eqb builder "" then
    mret ("local", commandBuilder_pg_dump)
  else if String.eqb builder "docker" then
    mret (targetKey, commandBuilder_docker)
  else if String.eqb builder "kubectl" then
    mret ("k8s", commandBuilder_kubectl)
  else
    return_ (Some (errors.Newf "unknown or invalid template type %q" builder)).

Variable w : World.

(** The handler. [output.NewOutput] only builds [out]; what is written
    through it is in the trace. *)
Definition handler (args : list string) : Run Event unit :=
  fs ← parse flagSet args;
  let builder := builder_of args in
  let targetKey := "docker" in
  '(targetKey, commandBuilder) ← switch_builder builder targetKey;
  let targetKey :=
    if negb (String.eqb (flag.deref fs "targets") "auto")
    then flag.deref fs "targets" else targetKey in
  targets ←
    match predefinedDatabaseDumpTargets !! targetKey with
    | None =>
        let targets := mkTargets (mkTarget "" "" "" "") (mkTarget "" "" "" "")
                                 (mkTarget "" "" "" "") in
        emit (EvWriteLine (Emojif EmojiInfo "Using targets defined in targets file %q" targetKey));;
        emit (EvOpen targetKey);;
        match Open w targetKey with
        | inl err => return_ (Some (errors.Wrapf err "invalid targets file %q" targetKey))
        | inr f =>
            emit (EvDecode f);;
            match Decode w f targets with
            | inl err => return_ (Some (errors.Wrapf err "invalid targets file %q" targetKey))
            | inr targets => mret targets
            end
        end
    | Some targets =>
        emit (EvWriteLine (Emojif EmojiInfo "Using predefined targets for %s environments" targetKey));;
        mret targets
    end;
  emit (EvBuildCommands srcSnapshotDir targets);;
  match BuildCommands srcSnapshotDir commandBuilder targets with
  | inl err => return_ (Some (errors.Wrap err "failed to build commands"))
  | inr commands =>
      emit (EvMkdirAll srcSnapshotDir ModePerm);;
      let _ := MkdirAll w srcSnapshotDir ModePerm in
      emit (EvBlock (Emoji EmojiSuccess "Run these commands to generate the required database dumps:"));;
      emit (EvBlockWrite (LF +:+ Join commands LF));;
      emit EvBlockClose;;
      emit (EvWriteLine (Styledf StyleSuggestion "Note that you may need to do some additional setup, such as authentication, beforehand."));;
      return_ None
  end.

End handler.

(** The target key a run resolved: the one named in its first line. *)
Definition targetKey_of (r : Run Event unit) : option string :=
  match trace r with
  | EvWriteLine (Emojif _ _ targetKey) :: _ => Some targetKey
  | _ => None
  end.

(** The derivation of the preset from the style, as the specification
    words it: direct gives [local], docker gives [docker], kubectl gives
    [k8s]. *)
Definition spec_auto_preset (style : string) : option string :=
  if bool_decide (style ∈ ["pg_dump"; ""]) then Some "local"
  else if bool_decide (style = "docker") then Some "docker"
  else if bool_decide (style = "kubectl") then Some "k8s"
  else None.

(** The same world with another answer from [os.MkdirAll]. *)
Definition withMkdirAll (w : World) (mk : string → Z → option errors.error) : World :=
  mkWorld (Open w) (Decode w) mk.

(** [sub] occurs in [s]. *)
Definition embeds (sub s : string) : Prop :=
  ∃ pre post, s = pre +:+ sub +:+ post.

(** Worlds for concrete runs: no targets file can be opened; the directory
    can, or cannot, be created. *)
Definition world_mkdir_ok : World :=
  mkWorld (λ _, inl (errors.Foreign "no such file or directory"))
          (λ _ t, inr t) (λ _ _, None).

Definition world_mkdir_fails : World :=
  withMkdirAll world_mkdir_ok (λ _ _, Some (errors.Foreign "permission denied")).

(** Concrete runs, with the model of [pgdump] and the directory
    [src-snapshot]. *)
Definition run (w : World) (args : list string) : Run Event unit :=
  handler pgdump.Command pgdump.BuildCommands "src-snapshot" w args.

(** The events of reading a targets file. *)
Definition is_file_read (e : Event) : bool :=
  match e with
  | EvOpen _ | EvDecode _ => true
  | _ => false
  end.

(** A [BuildCommands] that fails, for concrete runs. *)
Definition BuildCommands_failing (outDir : string) (commandBuilder : CommandBuilder)
    (targets : Targets) : errors.error + list string :=
  inl (errors.Foreign "generating command").

End snapshot_databases.

(* ===================================================================== *)
(** ** Properties of the [flag] package                                   *)
(* ===================================================================== *)

Module flag_facts.

Import flag.

(** What [parseOne] may do to a flag set: drop arguments, and set a
    registered flag. A property kept by both is kept by [parseOne]. *)
Lemma parseOne_preserves (P : FlagSet → Prop) (f : FlagSet) :
  P f →
  (∀ g a, P g → P (withArgs g a)) →
  (∀ g nm fl v, P g → formal g !! nm = Some fl → P (setFlag g nm fl v)) →
  P (parseOne f).1.1.
Proof.
  intros Hf Hargs Hset. unfold parseOne.
  repeat case_match; simpl; simplify_eq/=; auto.
Qed.

(** A round that saw a flag consumed at least one argument. *)
Lemma parseOne_seen_shorter (f f' : FlagSet) (e : option ParseError) :
  parseOne f = (f', true, e) → (List.length (args f') < List.length (args f))%nat.
Proof.
  unfold parseOne.
  repeat case_match; simpl; intros; simplify_eq/=; lia.
Qed.

Lemma parseLoop_fuel (fuel : nat) (f : FlagSet) :
  (List.length (args f) < fuel)%nat → is_Some (parseLoop fuel f).
Proof.
  revert f. induction fuel as [|fuel IH]; intros f Hlt; [lia|].
  simpl. destruct (parseOne f) as [[f' seen] e] eqn:Hone.
  destruct seen; [|eauto].
  apply IH. apply parseOne_seen_shorter in Hone. lia.
Qed.

Lemma parseLoop_preserves (P : FlagSet → Prop) (fuel : nat) (f f' : FlagSet) e :
  P f →
  (∀ g a, P g → P (withArgs g a)) →
  (∀ g nm fl v, P g → formal g !! nm = Some fl → P (setFlag g nm fl v)) →
  parseLoop fuel f = Some (f', e) → P f'.
Proof.
  intros Hf Hargs Hset. revert f Hf.
  induction fuel as [|fuel IH]; intros f Hf; [done|].
  simpl. destruct (parseOne f) as [[f1 seen] e1] eqn:Hone.
  assert (P f1) as Hf1.
  { pose proof (parseOne_preserves P f Hf Hargs Hset) as H.
    by rewrite Hone in H. }
  destruct seen; [by apply IH|].
  intros; by simplify_eq.
Qed.

(** [Parse] always comes back from its loop: the fuel is enough. *)
Lemma Parse_loop (f : FlagSet) (arguments : list string) :
  ∃ f' e, parseLoop (S (List.length arguments)) (withArgs f arguments) = Some (f', e).
Proof.
  destruct (parseLoop_fuel (S (List.length arguments)) (withArgs f arguments))
    as [[f' e] H]; [simpl; lia|eauto].
Qed.

Lemma Parse_preserves (P : FlagSet → Prop) (f f' : FlagSet) arguments e :
  P f →
  (∀ g a, P g → P (withArgs g a)) →
  (∀ g nm fl v, P g → formal g !! nm = Some fl → P (setFlag g nm fl v)) →
  Parse f arguments = (f', e) → P f'.
Proof.
  intros Hf Hargs Hset. unfold Parse.
  destruct (Parse_loop f arguments) as (f1 & e1 & Hloop). rewrite Hloop.
  assert (P f1) as Hf1.
  { eapply (parseLoop_preserves P _ (withArgs f arguments) f1 e1); eauto. }
  repeat case_match; intros; by simplify_eq.
Qed.

(** With [ExitOnError], [Parse] returns no error: it returns [nil] or ends
    the process. *)
Lemma Parse_ExitOnError (f f' : FlagSet) arguments e :
  errorHandling f = ExitOnError →
  Parse f arguments = (f', e) →
  e = Returned None ∨ e = Exited 0 ∨ e = Exited 2.
Proof.
  intros Heh HP.
  assert (errorHandling f' = ExitOnError) as Heh'.
  { by apply (Parse_preserves (λ g, errorHandling g = ExitOnError) f f' arguments e). }
  revert HP. unfold Parse.
  destruct (Parse_loop f arguments) as (f1 & e1 & ->).
  repeat case_match; intros; simplify_eq; auto; try congruence.
Qed.

(** A first argument that is not of the form of a flag stops the parsing
    at once: no flag is set, whatever follows. *)
Lemma Parse_nonFlag (f : FlagSet) (s : string) (rest : list string) :
  nonFlag s = true →
  Parse f (s :: rest) = (withArgs f (s :: rest), Returned None).
Proof.
  intros Hs. unfold Parse, nonFlag in *. simpl.
  unfold parseOne. simpl. by rewrite Hs.
Qed.

Lemma Parse_nil (f : FlagSet) : Parse f [] = (withArgs f [], Returned None).
Proof. reflexivity. Qed.

(** Parsing only ever drops arguments, and a first argument of the form of
    a flag is dropped when [Parse] returns [nil]. *)
Lemma parseOne_args_le (f : FlagSet) :
  (List.length (args (parseOne f).1.1) ≤ List.length (args f))%nat.
Proof.
  unfold parseOne.
  repeat case_match; simpl; simplify_eq/=; try lia.
  all: match goal with H : args _ = _ |- _ => rewrite H; simpl; lia end.
Qed.

Lemma parseLoop_S (fuel : nat) (f : FlagSet) :
  parseLoop (S fuel) f
  = let '(f', seen, err) := parseOne f in
    if seen then parseLoop fuel f' else Some (f', err).
Proof. reflexivity. Qed.

Lemma parseLoop_args_le (fuel : nat) (f f' : FlagSet) e :
  parseLoop fuel f = Some (f', e) →
  (List.length (args f') ≤ List.length (args f))%nat.
Proof.
  revert f. induction fuel as [|fuel IH]; intros f; [done|].
  simpl. pose proof (parseOne_args_le f) as Hle.
  destruct (parseOne f) as [[f1 seen] e1]. simpl in Hle.
  destruct seen.
  - intros H%IH. lia.
  - intros; simplify_eq. lia.
Qed.

Lemma parseOne_flag_not_seen (f f' : FlagSet) (a : string) (rest : list string) :
  args f = a :: rest → nonFlag a = false →
  parseOne f = (f', false, None) → args f' = rest.
Proof.
  unfold parseOne, nonFlag. intros -> ->.
  repeat case_match; simpl; intros; by simplify_eq/=.
Qed.

Lemma Parse_flag_consumed (f f' : FlagSet) (a : string) (rest : list string) :
  nonFlag a = false →
  Parse f (a :: rest) = (f', Returned None) →
  (List.length (args f') ≤ List.length rest)%nat.
Proof.
  intros Ha. unfold Parse.
  destruct (Parse_loop f (a :: rest)) as (f1 & [err|] & Hloop); rewrite Hloop.
  { repeat case_match; intros; by simplify_eq. }
  intros; simplify_eq.
  change (parseLoop (S (S (List.length rest))) (withArgs f (a :: rest)) = Some (f', None))
    in Hloop.
  rewrite parseLoop_S in Hloop.
  destruct (parseOne (withArgs f (a :: rest))) as [[f2 seen] e2] eqn:Hone.
  destruct seen.
  - apply parseLoop_args_le in Hloop.
    apply parseOne_seen_shorter in Hone. simpl in Hone. lia.
  - simplify_eq.
    by rewrite (parseOne_flag_not_seen (withArgs f (a :: rest)) f' a rest eq_refl Ha Hone).
Qed.

Lemma wf_NewFlagSet n eh : wf (NewFlagSet n eh).
Proof. split; intros ? ?; simpl; by rewrite lookup_empty. Qed.

Lemma wf_Var f v n u : wf f → wf (Var f v n u).
Proof.
  intros [Hn Ha]. unfold Var. destruct (formal f !! n) eqn:Hl; [done|].
  split; simpl.
  - intros n' fl. rewrite lookup_insert. case_decide; [|by auto].
    intros; by simplify_eq.
  - intros n' fl Hact. rewrite lookup_insert_ne; [by auto|].
    intros ->. apply Ha in Hact. congruence.
Qed.

Lemma wf_withArgs f a : wf f → wf (withArgs f a).
Proof. done. Qed.

Lemma wf_setFlag f nm fl v : wf f → formal f !! nm = Some fl → wf (setFlag f nm fl v).
Proof.
  intros [Hn Ha] Hfl. split; simpl.
  - intros n' fl'. rewrite lookup_insert. case_decide; [|by auto].
    intros; simplify_eq/=. by apply Hn.
  - intros n' fl'. rewrite !lookup_insert. case_decide; [done|by auto].
Qed.

Lemma wf_Parse f f' arguments e : wf f → Parse f arguments = (f', e) → wf f'.
Proof.
  intros Hf HP.
  apply (Parse_preserves wf f f' arguments e); auto using wf_withArgs, wf_setFlag.
Qed.

(** [Var] and [Parse] never remove a registered flag. *)
Lemma Var_lookup_Some f v n u n' fl :
  formal f !! n' = Some fl → formal (Var f v n u) !! n' = Some fl.
Proof.
  intros Hl. unfold Var. destruct (formal f !! n) eqn:Hn; [done|].
  simpl. rewrite lookup_insert_ne; [done|congruence].
Qed.

(** The flags [Visit] goes through are those of [actual]. *)
Lemma elem_of_sortFlags (m : gmap string Flag) (fl : Flag) :
  fl ∈ sortFlags m ↔ ∃ n, m !! n = Some fl.
Proof.
  unfold sortFlags. rewrite merge_sort_Permutation, list_elem_of_fmap.
  split.
  - intros ([n fl'] & -> & Hin). exists n. by apply elem_of_map_to_list.
  - intros [n Hn]. exists (n, fl). split; [done|]. by apply elem_of_map_to_list.
Qed.

End flag_facts.

(* ===================================================================== *)
(** ** Properties of [src repos add-kvp]                                  *)
(* ===================================================================== *)

Module add_kvp_facts.

Import flag flag_facts add_kvp.

Section facts.

Variable apiFlags : list Flag.
Variable w : World.

Lemma api_NewFlags_wf f : wf f → wf (api_NewFlags apiFlags f).
Proof.
  unfold api_NewFlags. revert f.
  induction apiFlags as [|fl l IH]; intros f Hf; simpl; [done|].
  apply IH. by apply wf_Var.
Qed.

Lemma api_NewFlags_lookup f n fl :
  formal f !! n = Some fl → formal (api_NewFlags apiFlags f) !! n = Some fl.
Proof.
  unfold api_NewFlags. revert f.
  induction apiFlags as [|fl' l IH]; intros f Hf; simpl; [done|].
  apply IH. by apply Var_lookup_Some.
Qed.

Lemma api_NewFlags_errorHandling f :
  errorHandling (api_NewFlags apiFlags f) = errorHandling f.
Proof.
  unfold api_NewFlags. revert f.
  induction apiFlags as [|fl' l IH]; intros f; simpl; [done|].
  rewrite IH. unfold Var. by destruct (formal f !! Name fl').
Qed.

Lemma api_NewFlags_actual f :
  actual (api_NewFlags apiFlags f) = actual f.
Proof.
  unfold api_NewFlags. revert f.
  induction apiFlags as [|fl' l IH]; intros f; simpl; [done|].
  rewrite IH. unfold Var. by destruct (formal f !! Name fl').
Qed.

Lemma flagSet_wf : wf (flagSet apiFlags).
Proof.
  unfold flagSet, flag.String.
  apply api_NewFlags_wf. repeat apply wf_Var. apply wf_NewFlagSet.
Qed.

Lemma flagSet_ExitOnError : errorHandling (flagSet apiFlags) = ExitOnError.
Proof. unfold flagSet. by rewrite api_NewFlags_errorHandling. Qed.

(** Before parsing, nothing is set and [-key] has its default, the empty
    string. *)
Lemma flagSet_key_default :
  actual (flagSet apiFlags) = ∅ ∧ deref (flagSet apiFlags) "key" = "".
Proof.
  split.
  - unfold flagSet. by rewrite api_NewFlags_actual.
  - unfold deref, flagSet.
    by erewrite api_NewFlags_lookup by (vm_compute; reflexivity).
Qed.

Lemma foldl_visitor (l : list Flag) (k v : option string) :
  foldl (λ st fl, visitor fl st) (k, v) l
  = (foldl (assign "key") k l, foldl (assign "value") v l).
Proof. revert k v. induction l as [|fl l IH]; intros k v; simpl; [done|]. by rewrite IH. Qed.

Lemma foldl_assign_absent (n : string) (l : list Flag) (o : option string) :
  (∀ fl, fl ∈ l → Name fl ≠ n) → foldl (assign n) o l = o.
Proof.
  revert o. induction l as [|fl l IH]; intros o Hl; simpl; [done|].
  rewrite IH by (intros; apply Hl; by right).
  unfold assign. destruct (String.eqb_spec (Name fl) n) as [Heq|]; [|done].
  exfalso. by apply (Hl fl); [left|].
Qed.

Lemma foldl_assign_present (n : string) (l : list Flag) (o : option string) (fl : Flag) :
  (∀ fl', fl' ∈ l → Name fl' = n → fl' = fl) →
  (fl ∈ l ∧ Name fl = n) ∨ o = Some (str fl) →
  foldl (assign n) o l = Some (str fl).
Proof.
  revert o. induction l as [|fl' l IH]; intros o Hl Hin; simpl.
  - destruct Hin as [[Hin _]|Ho]; [by apply elem_of_nil in Hin|done].
  - apply IH; [intros; apply Hl; [by right|done]|].
    unfold assign. destruct (String.eqb_spec (Name fl') n) as [Heq|Hne].
    + right. by rewrite (Hl fl') by (done || by left).
    + destruct Hin as [[Hin Hn]|Ho]; [|by right].
      apply elem_of_cons in Hin as [->|Hin]; [done|by left].
Qed.

(** What the handler finds by [Visit]: [keyFlag] and [valueFlag] point to
    the values of the flags that were set, and are [nil] otherwise. *)
Lemma Visit_visitor (fs : FlagSet) :
  wf fs →
  Visit fs visitor (None, None) = (str <$> actual fs !! "key", str <$> actual fs !! "value").
Proof.
  intros [Hn Ha]. unfold Visit. rewrite foldl_visitor.
  assert (∀ n, foldl (assign n) None (sortFlags (actual fs)) = str <$> actual fs !! n) as H.
  { intros n. destruct (actual fs !! n) as [fl|] eqn:Hact; simpl.
    - apply foldl_assign_present.
      + intros fl' [n' Hfl']%elem_of_sortFlags Hname.
        rewrite <-(Hn _ _ (Ha _ _ Hfl')) in Hfl'. congruence.
      + left. split; [apply elem_of_sortFlags; eauto|]. eauto.
    - apply foldl_assign_absent.
      intros fl' [n' Hfl']%elem_of_sortFlags Hname.
      rewrite <-(Hn _ _ (Ha _ _ Hfl')) in Hfl'. congruence. }
  by rewrite !H.
Qed.

(** The run of the handler once the flags are parsed. *)
Lemma handler_parsed (args : list string) (fs : FlagSet) :
  Parse (flagSet apiFlags) args = (fs, Returned None) →
  handler apiFlags w args =
    if String.eqb (deref fs "repo") ""
    then ([], Return (Some (errors.New "error: repo is required")))
    else
      match actual fs !! "key" with
      | None => ([], Return (Some (errors.New "error: key is required")))
      | Some kf =>
          let valueFlag := str <$> actual fs !! "value" in
          let vars := variables (deref fs "repo") (str kf) valueFlag in
          match Do w query vars with
          | (true, None) =>
              ([EvDo query vars;
                EvPrintf
                  match valueFlag with
                  | Some value => "Key-value pair '" +:+ str kf +:+ ":" +:+ value +:+ "' created." +:+ LF
                  | None => "Key-value pair '" +:+ str kf +:+ ":<nil>' created." +:+ LF
                  end],
               Return None)
          | (_, err) => ([EvDo query vars], Return err)
          end
      end.
Proof.
  intros HP.
  assert (wf fs) as Hwf by (eapply wf_Parse; [apply flagSet_wf|done]).
  unfold handler, parse. rewrite HP. simpl.
  destruct (String.eqb (deref fs "repo") ""); [done|].
  rewrite (Visit_visitor fs Hwf).
  destruct (actual fs !! "key") as [kf|]; simpl; [|done].
  destruct (Do w query _) as [ok [err|]]; simpl; [by destruct ok|].
  destruct ok; simpl; [|done].
  by destruct (actual fs !! "value").
Qed.

(** When [Parse] does not return [nil], the handler does nothing more. *)
Lemma handler_not_parsed (args : list string) (fs : FlagSet) (e : Ending) :
  Parse (flagSet apiFlags) args = (fs, e) → e ≠ Returned None →
  trace (handler apiFlags w args) = [].
Proof.
  intros HP He. unfold handler, parse. rewrite HP.
  destruct e as [[err|]|code|err]; done.
Qed.

(** A flag that was not set still has the value it was registered with. *)
Lemma Parse_unset_unchanged (f f' : FlagSet) (args : list string) (e : Ending) (n : string) :
  Parse f args = (f', e) →
  actual f' !! n = None → deref f' n = deref f n.
Proof.
  intros HP Hnone. unfold deref.
  assert (formal f' !! n = formal f !! n) as ->; [|done].
  revert Hnone.
  apply (Parse_preserves
           (λ g, actual g !! n = None → formal g !! n = formal f !! n) f f' args e);
    [done|done| |done].
  intros g nm fl v Hg Hfl. simpl. rewrite !lookup_insert.
  case_decide; [done|]. intros Hact. by rewrite Hg.
Qed.

Lemma append_inj_l (p a b : string) : p +:+ a = p +:+ b → a = b.
Proof. induction p as [|c p IH]; simpl; [done|]. intros [=]. auto. Qed.

(** C1: on a valid invocation (repository set, key passed) one request is
    sent, and its [value] variable keeps the three cases apart: it is [null]
    when [-value] was never passed, and the string passed otherwise; for
    [-value] passed as the empty string it is the empty string, which is not
    [null]. *)
Theorem C1_value_null_empty_or_literal (args : list string) (fs : FlagSet) (kf : Flag) :
  Parse (flagSet apiFlags) args = (fs, Returned None) →
  deref fs "repo" ≠ "" →
  actual fs !! "key" = Some kf →
  ∃ vars,
    requests (handler apiFlags w args) = [vars] ∧
    marshal <$> vars !! "repo" = Some (JString (deref fs "repo")) ∧
    marshal <$> vars !! "key" = Some (JString (str kf)) ∧
    (actual fs !! "value" = None → marshal <$> vars !! "value" = Some JNull) ∧
    (∀ vf, actual fs !! "value" = Some vf →
           marshal <$> vars !! "value" = Some (JString (str vf))) ∧
    (∀ vf, actual fs !! "value" = Some vf → str vf = "" →
           marshal <$> vars !! "value" = Some (JString "") ∧ JString "" ≠ JNull).
Proof.
  intros HP Hrepo Hkey.
  exists (variables (deref fs "repo") (str kf) (str <$> actual fs !! "value")).
  split.
  { rewrite (handler_parsed args fs HP).
    destruct (String.eqb_spec (deref fs "repo") ""); [done|].
    rewrite Hkey. simpl.
    destruct (Do w query _) as [[] [err|]]; reflexivity. }
  unfold variables.
  split; [done|]. split; [done|].
  split; [by intros ->|].
  split; [by intros vf ->|].
  intros vf -> Hvf. simpl. by rewrite Hvf.
Qed.

(** C5, as the code has it: the key must be passed, but it may be empty.
    With the repository set, an invocation that passes [-key] with the empty
    string is accepted and sends one request whose key is the empty string;
    only an invocation that never passes [-key] is rejected. *)
Theorem C5_key_required_but_may_be_empty (args : list string) (fs : FlagSet) :
  Parse (flagSet apiFlags) args = (fs, Returned None) →
  deref fs "repo" ≠ "" →
  (∀ kf, actual fs !! "key" = Some kf → str kf = "" →
     ∃ vars, requests (handler apiFlags w args) = [vars] ∧
             marshal <$> vars !! "key" = Some (JString "")) ∧
  (actual fs !! "key" = None →
     requests (handler apiFlags w args) = [] ∧
     result (handler apiFlags w args) = Return (Some (errors.New "error: key is required"))).
Proof.
  intros HP Hrepo.
  rewrite (handler_parsed args fs HP).
  destruct (String.eqb_spec (deref fs "repo") ""); [done|].
  split.
  - intros kf Hkey Hempty. rewrite Hkey. simpl. rewrite Hempty.
    exists (variables (deref fs "repo") "" (str <$> actual fs !! "value")).
    split; [|done].
    destruct (Do w query _) as [[] [err|]]; reflexivity.
  - by intros ->.
Qed.

(** C6: when the [-repo] flag is empty after parsing, no request is sent,
    and the handler returns the validation error "repo is required"; if the
    flags did not parse, [flag.Parse] has ended the process before. *)
Theorem C6_missing_repo_fails_before_request (args : list string) (fs : FlagSet) (e : Ending) :
  Parse (flagSet apiFlags) args = (fs, e) →
  deref fs "repo" = "" →
  trace (handler apiFlags w args) = [] ∧
  (e = Returned None →
     result (handler apiFlags w args) = Return (Some (errors.New "error: repo is required"))) ∧
  (e ≠ Returned None → ∃ code, result (handler apiFlags w args) = OsExit code).
Proof.
  intros HP Hrepo.
  destruct (Parse_ExitOnError _ _ _ _ flagSet_ExitOnError HP) as [->|He].
  - rewrite (handler_parsed args fs HP), Hrepo. simpl. by repeat split.
  - split; [apply (handler_not_parsed args fs e HP); by destruct He as [->| ->]|].
    split; [by destruct He as [->| ->]|].
    intros _. unfold handler, parse. rewrite HP.
    destruct He as [->| ->]; simpl; eauto.
Qed.

(** C7: when [-key] was never passed, the handler fails with a validation
    error and sends nothing. The flag has a default, the empty string, and
    still has it after parsing: what decides is that the flag is not among
    those [Visit] goes through, not its value. *)
Theorem C7_missing_key_fails (args : list string) (fs : FlagSet) :
  Parse (flagSet apiFlags) args = (fs, Returned None) →
  actual fs !! "key" = None →
  deref (flagSet apiFlags) "key" = "" ∧
  deref fs "key" = "" ∧
  (Visit fs visitor (None, None)).1 = None ∧
  trace (handler apiFlags w args) = [] ∧
  result (handler apiFlags w args) =
    Return (Some (errors.New (if String.eqb (deref fs "repo") ""
                              then "error: repo is required"
                              else "error: key is required"))).
Proof.
  intros HP Hkey.
  destruct flagSet_key_default as [Hempty Hdef].
  assert (wf fs) as Hwf by (eapply wf_Parse; [apply flagSet_wf|done]).
  split; [done|].
  split.
  { by rewrite (Parse_unset_unchanged _ _ args (Returned None) "key" HP Hkey). }
  split; [by rewrite (Visit_visitor fs Hwf), Hkey|].
  rewrite (handler_parsed args fs HP), Hkey.
  by destruct (String.eqb (deref fs "repo") "").
Qed.

(** C9: when the request of a valid invocation succeeds, one confirmation
    line is printed: [key:<nil>] when [-value] was never passed, which is
    not the line with an empty value, and [key:value] when a value was
    passed. *)
Theorem C9_confirmation_line (args : list string) (fs : FlagSet) (vars : gmap string any)
    (key : string) :
  Parse (flagSet apiFlags) args = (fs, Returned None) →
  requests (handler apiFlags w args) = [vars] →
  Do w query vars = (true, None) →
  vars !! "key" = Some (AString key) →
  result (handler apiFlags w args) = Return None ∧
  match actual fs !! "value" with
  | None =>
      printed (handler apiFlags w args)
        = ["Key-value pair '" +:+ key +:+ ":<nil>' created." +:+ LF] ∧
      "Key-value pair '" +:+ key +:+ ":<nil>' created." +:+ LF
        ≠ "Key-value pair '" +:+ key +:+ ":" +:+ "" +:+ "' created." +:+ LF
  | Some vf =>
      printed (handler apiFlags w args)
        = ["Key-value pair '" +:+ key +:+ ":" +:+ str vf +:+ "' created." +:+ LF]
  end.
Proof.
  intros HP. rewrite (handler_parsed args fs HP).
  destruct (String.eqb (deref fs "repo") ""); [done|].
  destruct (actual fs !! "key") as [kf|]; [|done]. simpl.
  set (vars' := variables _ _ _).
  assert (vars' !! "key" = Some (AString (str kf))) as Hk by done.
  destruct (Do w query vars') as [ok err] eqn:HDo.
  intros Hreq HDo' Hkey.
  assert (vars = vars') as ->.
  { destruct ok, err; unfold requests, trace in Hreq; simpl in Hreq; congruence. }
  rewrite HDo in HDo'. rewrite Hk in Hkey. simplify_eq.
  split; [done|].
  destruct (actual fs !! "value") as [vf|]; simpl; [done|].
  split; [done|].
  intros Heq. apply append_inj_l, append_inj_l in Heq. discriminate Heq.
Qed.

End facts.

Example add_kvp_tag :
  handler [] world_ok ["-repo=r"; "-key=k"]
  = ([EvDo query (variables "r" "k" None);
      EvPrintf ("Key-value pair 'k:<nil>' created." +:+ LF)], Return None).
Proof. vm_compute. reflexivity. Qed.

Example add_kvp_empty_value :
  handler [] world_ok ["-repo=r"; "-key=k"; "-value="]
  = ([EvDo query (variables "r" "k" (Some ""));
      EvPrintf ("Key-value pair 'k:' created." +:+ LF)], Return None).
Proof. vm_compute. reflexivity. Qed.

Example add_kvp_value :
  handler [] world_ok ["-repo"; "r"; "--key"; "k"; "-value=v"]
  = ([EvDo query (variables "r" "k" (Some "v"));
      EvPrintf ("Key-value pair 'k:v' created." +:+ LF)], Return None).
Proof. vm_compute. reflexivity. Qed.

Example add_kvp_boolean_flag :
  handler apiFlags_example world_ok ["-trace"; "-repo=r"; "-key=k"]
  = handler [] world_ok ["-repo=r"; "-key=k"] ∧
  handler apiFlags_example world_ok ["-trace=perhaps"; "-repo=r"; "-key=k"] = ([], OsExit 2) ∧
  handler apiFlags_example world_ok ["-repo=r"; "-help"] = ([], OsExit 0).
Proof. vm_compute. repeat split; reflexivity. Qed.

Example add_kvp_undefined_flag :
  handler [] world_ok ["-repo=r"; "-kee=k"] = ([], OsExit 2).
Proof. vm_compute. reflexivity. Qed.

Lemma C1_witness :
  let args := ["-repo=r"; "-key=k"; "-value="] in
  ∃ vars, requests (handler [] world_ok args) = [vars] ∧
          marshal <$> vars !! "value" = Some (JString "") ∧ JString "" ≠ JNull.
Proof.
  intros args.
  destruct (C1_value_null_empty_or_literal [] world_ok args
              (Parse (flagSet []) args).1 (keyFlag_of "k"))
    as (vars & Hreq & _ & _ & _ & _ & Hempty).
  - vm_compute. reflexivity.
  - vm_compute. discriminate.
  - vm_compute. reflexivity.
  - exists vars. split; [exact Hreq|].
    apply (Hempty (valueFlag_of "")); vm_compute; reflexivity.
Defined.

(** C5, as the specification has it, fails: [-repo=r -key=] passes [-key]
    with the empty string, yet the flags parse, validation accepts, and one
    request is sent whose key is the empty string. *)
Lemma C5_counterexample :
  let args := ["-repo=r"; "-key="] in
  let parsed := Parse (flagSet []) args in
  parsed.2 = Returned None ∧
  str <$> actual parsed.1 !! "key" = Some "" ∧
  requests (handler [] world_ok args) = [variables "r" "" None] ∧
  result (handler [] world_ok args) = Return None.
Proof. vm_compute. repeat split; reflexivity. Qed.

Lemma C5_witness :
  let args := ["-repo=r"; "-key="] in
  ∃ vars, requests (handler [] world_ok args) = [vars] ∧
          marshal <$> vars !! "key" = Some (JString "").
Proof.
  intros args.
  destruct (C5_key_required_but_may_be_empty [] world_ok args
              (Parse (flagSet []) args).1) as [Hset _].
  - vm_compute. reflexivity.
  - vm_compute. discriminate.
  - apply (Hset (keyFlag_of "")); vm_compute; reflexivity.
Defined.

Lemma C6_witness :
  let args := ["-key=k"; "-value=v"] in
  trace (handler [] world_ok args) = [] ∧
  result (handler [] world_ok args) = Return (Some (errors.New "error: repo is required")).
Proof.
  intros args.
  destruct (C6_missing_repo_fails_before_request [] world_ok args
              (Parse (flagSet []) args).1 (Returned None)) as (Htrace & Hres & _).
  - vm_compute. reflexivity.
  - vm_compute. reflexivity.
  - split; [exact Htrace|]. apply Hres. reflexivity.
Defined.

Lemma C7_witness :
  let args := ["-repo=r"; "-value=v"] in
  trace (handler [] world_ok args) = [] ∧
  result (handler [] world_ok args) = Return (Some (errors.New "error: key is required")).
Proof.
  intros args.
  destruct (C7_missing_key_fails [] world_ok args (Parse (flagSet []) args).1)
    as (_ & _ & _ & Htrace & Hres).
  - vm_compute. reflexivity.
  - vm_compute. reflexivity.
  - split; [exact Htrace|exact Hres].
Defined.

Lemma C9_witness :
  let args := ["-repo=r"; "-key=k"] in
  printed (handler [] world_ok args) = ["Key-value pair 'k:<nil>' created." +:+ LF].
Proof.
  intros args.
  destruct (C9_confirmation_line [] world_ok args (Parse (flagSet []) args).1
              (variables "r" "k" None) "k") as [_ Hline].
  - vm_compute. reflexivity.
  - vm_compute. reflexivity.
  - reflexivity.
  - vm_compute. reflexivity.
  - apply Hline.
Defined.

End add_kvp_facts.

(* ===================================================================== *)
(** ** Properties of [src snapshot databases]                             *)
(* ===================================================================== *)

Module snapshot_databases_facts.

Import flag flag_facts pgdump snapshot_databases.

Lemma string_app_assoc (a b c : string) : (a +:+ b) +:+ c = a +:+ (b +:+ c).
Proof.
  induction a as [|x a IH]; [done|].
  change (String.String x ((a +:+ b) +:+ c) = String.String x (a +:+ (b +:+ c))).
  by rewrite IH.
Qed.

Lemma string_app_nil_r (a : string) : a +:+ "" = a.
Proof.
  induction a as [|x a IH]; [done|].
  change (String.String x (a +:+ "") = String.String x a).
  by rewrite IH.
Qed.

Lemma embeds_app_l (sub p s : string) : embeds sub s → embeds sub (p +:+ s).
Proof.
  intros (pre & post & ->). exists (p +:+ pre), post.
  by rewrite string_app_assoc.
Qed.

Lemma embeds_app_r (sub s q : string) : embeds sub s → embeds sub (s +:+ q).
Proof.
  intros (pre & post & ->). exists pre, (post +:+ q).
  by rewrite !string_app_assoc.
Qed.

Lemma embeds_prefix (a b post : string) : embeds (a +:+ b) (a +:+ b +:+ post).
Proof. exists "", post. by rewrite string_app_assoc. Qed.

(** The command of the model of [pgdump.Command] carries the three
    connection parameters. *)
Lemma Command_embeds (t : Target) :
  embeds ("--dbname=" +:+ DBName t) (pgdump.Command t) ∧
  embeds ("--username=" +:+ Username t) (pgdump.Command t) ∧
  embeds ("PGPASSWORD=" +:+ Password t) (pgdump.Command t).
Proof.
  unfold pgdump.Command. repeat split.
  - exists ("PGPASSWORD=" +:+ Password t +:+ " pg_dump --username=" +:+ Username t +:+ " "), "".
    by rewrite !string_app_assoc, string_app_nil_r.
  - apply embeds_app_l, embeds_app_l.
    exists " pg_dump ", (" --dbname=" +:+ DBName t).
    by rewrite !string_app_assoc.
  - apply embeds_prefix.
Qed.

(** Membership of an event in a trace that is written out. *)
Ltac not_in_trace :=
  let H := fresh "Hin" in
  intros H;
  repeat (apply elem_of_cons in H as [H|H]; [discriminate H|]);
  by apply elem_of_nil in H.

Ltac in_trace :=
  repeat (apply elem_of_cons; first [left; reflexivity | right]).

Section facts.

Variable Command : Target → string.
Variable BuildCommands : string → CommandBuilder → Targets → errors.error + list string.
Variable srcSnapshotDir : string.

Lemma databases_flagSet_ExitOnError : errorHandling flagSet = ExitOnError.
Proof. reflexivity. Qed.

(** The strings the [switch] knows are not of the form of a flag. *)
Lemma style_nonFlag (s : string) :
  s ∈ ["pg_dump"; ""; "docker"; "kubectl"] → nonFlag s = true.
Proof. intros Hs. repeat (apply elem_of_cons in Hs as [->|Hs]; [done|]). by apply elem_of_nil in Hs. Qed.

(** The [default] case of the [switch]. *)
Lemma switch_builder_unknown {E} (builder targetKey : string) :
  builder ∉ ["pg_dump"; ""; "docker"; "kubectl"] →
  switch_builder (E:=E) Command builder targetKey
  = ([], Return (Some (errors.Newf "unknown or invalid template type %q" builder))).
Proof.
  intros Hb. unfold switch_builder.
  destruct (String.eqb_spec builder "pg_dump") as [->|]; [destruct Hb; in_trace|].
  destruct (String.eqb_spec builder "") as [->|]; [destruct Hb; in_trace|].
  destruct (String.eqb_spec builder "docker") as [->|]; [destruct Hb; in_trace|].
  destruct (String.eqb_spec builder "kubectl") as [->|]; [destruct Hb; in_trace|].
  done.
Qed.

(** When [Parse] does not return [nil], the handler does nothing more. *)
Lemma databases_handler_not_parsed (w : World) (args : list string) (fs : FlagSet) (e : Ending) :
  Parse flagSet args = (fs, e) → e ≠ Returned None →
  trace (handler Command BuildCommands srcSnapshotDir w args) = [].
Proof.
  intros HP He. unfold handler, parse. rewrite HP.
  destruct e as [[err|]|code|err]; done.
Qed.

Lemma predefined_local :
  predefinedDatabaseDumpTargets !! "local"
  = Some (mkTargets (mkTarget "" "sg" "sg" "sg") (mkTarget "" "sg" "sg" "sg")
                    (mkTarget "" "postgres" "postgres" "password")).
Proof. reflexivity. Qed.

Lemma predefined_docker :
  predefinedDatabaseDumpTargets !! "docker"
  = Some (mkTargets (mkTarget "pgsql" "sg" "sg" "sg") (mkTarget "codeintel-db" "sg" "sg" "sg")
                    (mkTarget "codeinsights-db" "postgres" "postgres" "password")).
Proof. reflexivity. Qed.

Lemma predefined_k8s :
  predefinedDatabaseDumpTargets !! "k8s"
  = Some (mkTargets (mkTarget "statefulset/pgsql" "sg" "sg" "sg")
                    (mkTarget "statefulset/codeintel-db" "sg" "sg" "sg")
                    (mkTarget "statefulset/codeinsights-db" "postgres" "postgres" "password")).
Proof. reflexivity. Qed.

(** C3: a builder that is none of [pg_dump], the empty string, [docker],
    [kubectl] makes the handler return the error "unknown or invalid template
    type", with no call made before: no file is opened, no directory made,
    no command rendered, nothing written. If the flags did not parse,
    [flag.Parse] has ended the process before, and nothing was called
    either. *)
Theorem C3_unknown_style_fails (w : World) (args : list string) (fs : FlagSet) (e : Ending) :
  Parse flagSet args = (fs, e) →
  builder_of args ∉ ["pg_dump"; ""; "docker"; "kubectl"] →
  trace (handler Command BuildCommands srcSnapshotDir w args) = [] ∧
  (e = Returned None →
     result (handler Command BuildCommands srcSnapshotDir w args)
     = Return (Some (errors.Newf "unknown or invalid template type %q" (builder_of args)))) ∧
  (e ≠ Returned None →
     ∃ code, result (handler Command BuildCommands srcSnapshotDir w args) = OsExit code).
Proof.
  intros HP Hb.
  destruct (Parse_ExitOnError _ _ _ _ databases_flagSet_ExitOnError HP) as [->|He].
  - unfold handler, parse. rewrite HP. simpl.
    rewrite (switch_builder_unknown _ _ Hb). by repeat split.
  - split; [apply (databases_handler_not_parsed w args fs e HP); by destruct He as [->| ->]|].
    split; [by destruct He as [->| ->]|].
    intros _. unfold handler, parse. rewrite HP.
    destruct He as [->| ->]; simpl; eauto.
Qed.

(** C2: with the targets selector [auto], the target key the handler
    resolves is the one the specification derives from the style, and it
    names a predefined set; for the style [docker] it is [docker], not
    [local] and not [k8s]. The style is the builder the handler reads. *)
Theorem C2_auto_preset_from_style (w : World) (args : list string) (fs : FlagSet)
    (preset : string) :
  Parse flagSet args = (fs, Returned None) →
  deref fs "targets" = "auto" →
  spec_auto_preset (builder_of args) = Some preset →
  targetKey_of (handler Command BuildCommands srcSnapshotDir w args) = Some preset ∧
  (∃ targets,
     predefinedDatabaseDumpTargets !! preset = Some targets ∧
     EvBuildCommands srcSnapshotDir targets
       ∈ trace (handler Command BuildCommands srcSnapshotDir w args)) ∧
  (builder_of args = "docker" →
     targetKey_of (handler Command BuildCommands srcSnapshotDir w args) = Some "docker" ∧
     preset ≠ "local" ∧ preset ≠ "k8s").
Proof.
  intros HP Hauto Hspec.
  unfold spec_auto_preset in Hspec.
  unfold handler, parse. rewrite HP. simpl. rewrite Hauto. simpl.
  unfold switch_builder.
  repeat case_bool_decide; simplify_eq.
  - assert (builder_of args = "pg_dump" ∨ builder_of args = "") as [-> | ->].
    { match goal with H : builder_of args ∈ _ |- _ =>
        apply elem_of_cons in H as [?|H]; [by left|];
        apply elem_of_cons in H as [?|H]; [by right|]; by apply elem_of_nil in H end. }
    all: simpl; rewrite predefined_local; simpl.
    all: split; [done|]; split; [|done].
    all: eexists; split; [reflexivity|in_trace].
  - match goal with H : builder_of args = _ |- _ => rewrite H end. simpl.
    rewrite predefined_docker. simpl.
    split; [done|]. split; [|done].
    eexists; split; [reflexivity|in_trace].
  - match goal with H : builder_of args = _ |- _ => rewrite H end. simpl.
    rewrite predefined_k8s. simpl.
    split; [done|]. split; [|done].
    eexists; split; [reflexivity|in_trace].
Qed.

(** C10: the builder is the first of the arguments as given, before any
    flag parsing. When that first argument has the form of a flag and the
    flags parse, it is taken for the style, although the parsing consumed it
    and it is not among the arguments left, and the handler returns the
    unknown-template-type error. When it does not have the form of a flag,
    parsing stops there: no flag is set, the targets selector is [auto], and
    whatever follows the first argument has no effect. *)
Theorem C10_builder_is_first_raw_argument (w : World) (args : list string) (fs : FlagSet) :
  Parse flagSet args = (fs, Returned None) →
  (nonFlag (builder_of args) = false →
     (List.length (flag.args fs) < List.length args)%nat ∧
     handler Command BuildCommands srcSnapshotDir w args
     = ([], Return (Some (errors.Newf "unknown or invalid template type %q" (builder_of args))))) ∧
  (nonFlag (builder_of args) = true →
     actual fs = ∅ ∧
     deref fs "targets" = "auto" ∧
     handler Command BuildCommands srcSnapshotDir w args
     = handler Command BuildCommands srcSnapshotDir w (take 1 args)).
Proof.
  intros HP. split; intros Hb.
  - split.
    { destruct args as [|a rest]; [done|]. simpl.
      apply Nat.lt_succ_r. by apply (Parse_flag_consumed flagSet fs a rest). }
    assert (builder_of args ∉ ["pg_dump"; ""; "docker"; "kubectl"]) as Hstyle.
    { intros Hin%style_nonFlag. congruence. }
    unfold handler, parse. rewrite HP. simpl.
    by rewrite (switch_builder_unknown _ _ Hstyle).
  - destruct args as [|a rest].
    + rewrite Parse_nil in HP. by simplify_eq.
    + simpl in Hb. rewrite (Parse_nonFlag _ a rest Hb) in HP. simplify_eq.
      repeat split.
      unfold handler, parse. simpl take.
      by rewrite !Parse_nonFlag.
Qed.

(** C4, as the code has it: when the handler gets to create the output
    directory it has rendered the commands, and whatever [os.MkdirAll]
    answers is dropped: the handler writes the commands and returns [nil],
    and its run is the same for every answer. *)
Theorem C4_mkdir_failure_is_dropped (w : World) (args : list string) :
  EvMkdirAll srcSnapshotDir ModePerm ∈ trace (handler Command BuildCommands srcSnapshotDir w args) →
  result (handler Command BuildCommands srcSnapshotDir w args) = Return None ∧
  (∃ commandBuilder targets commands,
     BuildCommands srcSnapshotDir commandBuilder targets = inr commands ∧
     EvBlockWrite (LF +:+ Join commands LF)
       ∈ trace (handler Command BuildCommands srcSnapshotDir w args)) ∧
  (∀ mk, handler Command BuildCommands srcSnapshotDir (withMkdirAll w mk) args
         = handler Command BuildCommands srcSnapshotDir w args).
Proof.
  intros Hin. split; [|split; [|done]].
  - revert Hin. unfold handler, parse, switch_builder.
    destruct (Parse flagSet args) as [fs [[err|]|code|err]]; simpl;
      try (by intros ?%elem_of_nil).
    repeat (case_match; simpl; try (by intros ?%elem_of_nil));
      solve [done | not_in_trace].
  - revert Hin. unfold handler, parse, switch_builder.
    destruct (Parse flagSet args) as [fs [[err|]|code|err]]; simpl;
      try (by intros ?%elem_of_nil).
    repeat (case_match; simpl; try (by intros ?%elem_of_nil));
      solve [ not_in_trace
            | intros _; eexists _, _, _; split; [eassumption|in_trace] ].
Qed.

(** What the [switch] leaves when it does not return. *)
Lemma switch_builder_inv {E} (builder key : string) (cb : CommandBuilder) :
  switch_builder (E:=E) Command builder "docker" = ([], Continue (key, cb)) →
  (builder ∈ ["pg_dump"; ""] ∧ key = "local" ∧ cb = commandBuilder_pg_dump Command) ∨
  (builder = "docker" ∧ key = "docker" ∧ cb = commandBuilder_docker Command) ∨
  (builder = "kubectl" ∧ key = "k8s" ∧ cb = commandBuilder_kubectl Command).
Proof.
  unfold switch_builder.
  destruct (String.eqb_spec builder "pg_dump") as [->|]; simpl.
  { intros [=]; subst. left. split; [in_trace|done]. }
  destruct (String.eqb_spec builder "") as [->|]; simpl.
  { intros [=]; subst. left. split; [in_trace|done]. }
  destruct (String.eqb_spec builder "docker") as [->|]; simpl.
  { intros [=]; subst. right; left. done. }
  destruct (String.eqb_spec builder "kubectl") as [->|]; simpl.
  { intros [=]; subst. right; right. done. }
  done.
Qed.

End facts.

(** C8: for every style the [switch] accepts and every target, the rendered
    command carries the database name, the username and the password as
    connection parameters, and when the target is not empty the wrapper of
    the style is applied: [--host=] for the direct style, [docker exec] and
    [kubectl exec] for the other two. With the style [kubectl] the target
    key is [k8s], whose primary target renders to
    [kubectl exec -it statefulset/pgsql -- bash -c '...']. *)
Theorem C8_rendered_command (builder key : string) (cb : CommandBuilder) (t : Target) :
  switch_builder (E:=Event) pgdump.Command builder "docker" = ([], Continue (key, cb)) →
  ∃ s, cb t = (s, None) ∧
    embeds ("--dbname=" +:+ DBName t) s ∧
    embeds ("--username=" +:+ Username t) s ∧
    embeds ("PGPASSWORD=" +:+ Password t) s ∧
    (target t ≠ "" →
       (builder ∈ ["pg_dump"; ""] → s = pgdump.Command t +:+ " --host=" +:+ target t) ∧
       (builder = "docker" →
          s = "docker exec -it " +:+ target t +:+ " sh -c '" +:+ pgdump.Command t +:+ "'") ∧
       (builder = "kubectl" →
          s = "kubectl exec -it " +:+ target t +:+ " -- bash -c '" +:+ pgdump.Command t +:+ "'")) ∧
    (builder = "kubectl" →
       ∃ ts, predefinedDatabaseDumpTargets !! key = Some ts ∧
             Primary ts = mkTarget "statefulset/pgsql" "sg" "sg" "sg" ∧
             cb (Primary ts)
             = ("kubectl exec -it statefulset/pgsql -- bash -c '"
                  +:+ pgdump.Command (Primary ts) +:+ "'", None)).
Proof.
  intros Hsw.
  destruct (Command_embeds t) as (Hdb & Huser & Hpw).
  apply switch_builder_inv in Hsw as [(Hb & -> & ->)|[(-> & -> & ->)|(-> & -> & ->)]].
  - unfold commandBuilder_pg_dump.
    destruct (String.eqb_spec (target t) "") as [Htarget|Htarget]; simpl.
    + exists (pgdump.Command t). repeat split; try done.
      all: intros Hb'; exfalso; revert Hb; rewrite Hb'; not_in_trace.
    + exists (pgdump.Command t +:+ " --host=" +:+ target t).
      repeat split; try done; try by apply embeds_app_r.
      all: intros Hb'; exfalso; revert Hb; rewrite Hb'; not_in_trace.
  - eexists. split; [reflexivity|].
    repeat split; try done;
      try by (do 3 apply embeds_app_l; apply embeds_app_r).
    all: try by not_in_trace.
  - eexists. split; [reflexivity|].
    repeat split; try done;
      try by (do 3 apply embeds_app_l; apply embeds_app_r).
    + not_in_trace.
    + intros _. eexists. split; [apply predefined_k8s|]. done.
Qed.

Lemma C8_witness :
  ∃ s, commandBuilder_kubectl pgdump.Command (mkTarget "statefulset/pgsql" "sg" "sg" "sg")
       = (s, None) ∧
       s = "kubectl exec -it statefulset/pgsql -- bash -c 'PGPASSWORD=sg pg_dump --username=sg --dbname=sg'" ∧
       embeds "--dbname=sg" s ∧ embeds "--username=sg" s ∧ embeds "PGPASSWORD=sg" s.
Proof.
  destruct (C8_rendered_command "kubectl" "k8s" (commandBuilder_kubectl pgdump.Command)
              (mkTarget "statefulset/pgsql" "sg" "sg" "sg"))
    as (s & Hs & Hdb & Huser & Hpw & Hwrap & _).
  - reflexivity.
  - exists s. split; [exact Hs|].
    split; [|by repeat split].
    apply Hwrap; [discriminate|reflexivity].
Defined.

Example databases_docker :
  run world_mkdir_ok ["docker"]
  = ([EvWriteLine (Emojif EmojiInfo "Using predefined targets for %s environments" "docker");
      EvBuildCommands "src-snapshot"
        (mkTargets (mkTarget "pgsql" "sg" "sg" "sg") (mkTarget "codeintel-db" "sg" "sg" "sg")
                   (mkTarget "codeinsights-db" "postgres" "postgres" "password"));
      EvMkdirAll "src-snapshot" ModePerm;
      EvBlock (Emoji EmojiSuccess "Run these commands to generate the required database dumps:");
      EvBlockWrite (LF +:+ Join
        ["docker exec -it pgsql sh -c 'PGPASSWORD=sg pg_dump --username=sg --dbname=sg'";
         "docker exec -it codeintel-db sh -c 'PGPASSWORD=sg pg_dump --username=sg --dbname=sg'";
         "docker exec -it codeinsights-db sh -c 'PGPASSWORD=password pg_dump --username=postgres --dbname=postgres'"]
        LF);
      EvBlockClose;
      EvWriteLine (Styledf StyleSuggestion "Note that you may need to do some additional setup, such as authentication, beforehand.")],
     Return None).
Proof. vm_compute. reflexivity. Qed.

Example databases_flag_first :
  run world_mkdir_ok ["-targets=k8s"; "kubectl"]
  = ([], Return (Some (errors.Newf "unknown or invalid template type %q" "-targets=k8s"))).
Proof. vm_compute. reflexivity. Qed.

Example databases_flag_last :
  targetKey_of (run world_mkdir_ok ["pg_dump"; "-targets=k8s"]) = Some "local".
Proof. vm_compute. reflexivity. Qed.

Example databases_undefined_flag :
  run world_mkdir_ok ["-target=k8s"; "kubectl"] = ([], OsExit 2).
Proof. vm_compute. reflexivity. Qed.

Lemma C2_witness : targetKey_of (run world_mkdir_ok ["docker"]) = Some "docker".
Proof.
  destruct (C2_auto_preset_from_style pgdump.Command pgdump.BuildCommands "src-snapshot"
              world_mkdir_ok ["docker"] (Parse flagSet ["docker"]).1 "docker")
    as (Hkey & _ & _).
  - vm_compute. reflexivity.
  - vm_compute. reflexivity.
  - vm_compute. reflexivity.
  - exact Hkey.
Defined.

Lemma C3_witness :
  run world_mkdir_ok ["frobnicate"]
  = ([], Return (Some (errors.Newf "unknown or invalid template type %q" "frobnicate"))).
Proof.
  destruct (C3_unknown_style_fails pgdump.Command pgdump.BuildCommands "src-snapshot"
              world_mkdir_ok ["frobnicate"] (Parse flagSet ["frobnicate"]).1 (Returned None))
    as (Htrace & Hres & _).
  - vm_compute. reflexivity.
  - simpl. not_in_trace.
  - specialize (Hres eq_refl). fold (run world_mkdir_ok ["frobnicate"]) in Htrace, Hres.
    destruct (run world_mkdir_ok ["frobnicate"]) as [t r].
    unfold trace, result in *. simpl in *. by subst.
Defined.

(** C4, as the specification has it, fails: with the style [docker] the
    handler calls [os.MkdirAll], the call fails, and the run, output and
    result, is the one of a world where the call succeeds. *)
Lemma C4_counterexample :
  EvMkdirAll "src-snapshot" ModePerm ∈ trace (run world_mkdir_fails ["docker"]) ∧
  MkdirAll world_mkdir_fails "src-snapshot" ModePerm
    = Some (errors.Foreign "permission denied") ∧
  MkdirAll world_mkdir_ok "src-snapshot" ModePerm = None ∧
  result (run world_mkdir_fails ["docker"]) = Return None ∧
  run world_mkdir_fails ["docker"] = run world_mkdir_ok ["docker"].
Proof.
  split; [|by repeat split].
  vm_compute. in_trace.
Qed.

Lemma C4_witness :
  result (run world_mkdir_fails ["docker"]) = Return None ∧
  run (withMkdirAll world_mkdir_fails (λ _ _, None)) ["docker"] = run world_mkdir_fails ["docker"].
Proof.
  destruct (C4_mkdir_failure_is_dropped pgdump.Command pgdump.BuildCommands "src-snapshot"
              world_mkdir_fails ["docker"]) as (Hres & _ & Hsame).
  - vm_compute. in_trace.
  - split; [exact Hres|apply Hsame].
Defined.

Lemma C10_witness :
  (run world_mkdir_ok ["-targets=k8s"; "docker"]
   = ([], Return (Some (errors.Newf "unknown or invalid template type %q" "-targets=k8s"))) ∧
   deref (Parse flagSet ["-targets=k8s"; "docker"]).1 "targets" = "k8s") ∧
  (run world_mkdir_ok ["kubectl"; "-targets=docker"] = run world_mkdir_ok ["kubectl"] ∧
   deref (Parse flagSet ["kubectl"; "-targets=docker"]).1 "targets" = "auto").
Proof.
  split.
  - destruct (C10_builder_is_first_raw_argument pgdump.Command pgdump.BuildCommands
                "src-snapshot" world_mkdir_ok ["-targets=k8s"; "docker"]
                (Parse flagSet ["-targets=k8s"; "docker"]).1) as [Hflag _].
    + vm_compute. reflexivity.
    + split; [|vm_compute; reflexivity]. apply Hflag. vm_compute. reflexivity.
  - destruct (C10_builder_is_first_raw_argument pgdump.Command pgdump.BuildCommands
                "src-snapshot" world_mkdir_ok ["kubectl"; "-targets=docker"]
                (Parse flagSet ["kubectl"; "-targets=docker"]).1) as [_ Hpos].
    + vm_compute. reflexivity.
    + destruct Hpos as (_ & Hauto & Hsame); [vm_compute; reflexivity|].
      split; [exact Hsame|exact Hauto].
Defined.

End snapshot_databases_facts.

(* ===================================================================== *)
(** ** [src snapshot databases]: the whole run                            *)
(* ===================================================================== *)

Module snapshot_databases_runs.

Import flag flag_facts pgdump snapshot_databases snapshot_databases_facts.

Section runs.

Variable Command : Target → string.
Variable BuildCommands : string → CommandBuilder → Targets → errors.error + list string.
Variable srcSnapshotDir : string.
Variable w : World.

(** A builder the [switch] accepts is not of the form of a flag, so that
    [Parse] stops before it and leaves the flag set as [init] made it. *)
Lemma Parse_accepted (args : list string) :
  builder_of args ∈ ["pg_dump"; ""; "docker"; "kubectl"] →
  Parse flagSet args = (withArgs flagSet args, Returned None).
Proof.
  intros Hb%style_nonFlag. destruct args as [|a rest]; [apply Parse_nil|].
  by apply Parse_nonFlag.
Qed.

(** The run of the handler for a builder the [switch] accepts, whatever
    the other arguments are. *)
Lemma handler_accepted (args : list string) (key : string) (cb : CommandBuilder) :
  switch_builder (E:=Event) Command (builder_of args) "docker" = ([], Continue (key, cb)) →
  ∃ ts,
    predefinedDatabaseDumpTargets !! key = Some ts ∧
    handler Command BuildCommands srcSnapshotDir w args =
      match BuildCommands srcSnapshotDir cb ts with
      | inl err =>
          ([EvWriteLine (Emojif EmojiInfo "Using predefined targets for %s environments" key);
            EvBuildCommands srcSnapshotDir ts],
           Return (Some (errors.Wrap err "failed to build commands")))
      | inr commands =>
          ([EvWriteLine (Emojif EmojiInfo "Using predefined targets for %s environments" key);
            EvBuildCommands srcSnapshotDir ts;
            EvMkdirAll srcSnapshotDir ModePerm;
            EvBlock (Emoji EmojiSuccess "Run these commands to generate the required database dumps:");
            EvBlockWrite (LF +:+ Join commands LF);
            EvBlockClose;
            EvWriteLine (Styledf StyleSuggestion "Note that you may need to do some additional setup, such as authentication, beforehand.")],
           Return None)
      end.
Proof.
  intros Hsw.
  assert (builder_of args ∈ ["pg_dump"; ""; "docker"; "kubectl"]) as Hstyle.
  { destruct (switch_builder_inv Command _ _ _ Hsw)
      as [(Hb & _)|[(-> & _)|(-> & _)]]; [|in_trace..].
    apply elem_of_cons in Hb as [->|Hb]; [in_trace|].
    apply elem_of_cons in Hb as [->|Hb]; [in_trace|]. by apply elem_of_nil in Hb. }
  assert (deref (withArgs flagSet args) "targets" = "auto") as Hauto by reflexivity.
  unfold handler, parse. rewrite (Parse_accepted args Hstyle). simpl.
  rewrite Hsw, Hauto. simpl.
  destruct (switch_builder_inv Command _ _ _ Hsw)
    as [(_ & -> & _)|[(_ & -> & _)|(_ & -> & _)]].
  - eexists. split; [apply predefined_local|]. rewrite predefined_local. simpl.
    by destruct (BuildCommands _ _ _).
  - eexists. split; [apply predefined_docker|]. rewrite predefined_docker. simpl.
    by destruct (BuildCommands _ _ _).
  - eexists. split; [apply predefined_k8s|]. rewrite predefined_k8s. simpl.
    by destruct (BuildCommands _ _ _).
Qed.

(** The [switch] accepts exactly the four builders. *)
Lemma switch_builder_accepts (builder : string) :
  builder ∈ ["pg_dump"; ""; "docker"; "kubectl"] →
  ∃ key cb, switch_builder (E:=Event) Command builder "docker" = ([], Continue (key, cb)).
Proof.
  intros Hb. unfold switch_builder.
  repeat (apply elem_of_cons in Hb as [->|Hb]; [simpl; eauto|]).
  by apply elem_of_nil in Hb.
Qed.

(** The run of the handler in every other case: nothing is called. *)
Lemma handler_rejected (args : list string) :
  builder_of args ∉ ["pg_dump"; ""; "docker"; "kubectl"] →
  trace (handler Command BuildCommands srcSnapshotDir w args) = [] ∧
  (result (handler Command BuildCommands srcSnapshotDir w args) = OsExit 0 ∨
   result (handler Command BuildCommands srcSnapshotDir w args) = OsExit 2 ∨
   result (handler Command BuildCommands srcSnapshotDir w args)
   = Return (Some (errors.Newf "unknown or invalid template type %q" (builder_of args)))).
Proof.
  intros Hb. destruct (Parse flagSet args) as [fs e] eqn:HP.
  destruct (Parse_ExitOnError _ _ _ _ databases_flagSet_ExitOnError HP) as [->|He].
  - unfold handler, parse. rewrite HP. simpl.
    rewrite (switch_builder_unknown Command _ _ Hb). auto.
  - unfold handler, parse. rewrite HP. destruct He as [-> | ->]; simpl; auto.
Qed.

(** X1: commands are built exactly when the first of the raw arguments is
    one of the four builders (or there is no argument), whatever else is on
    the command line. *)
Theorem X1_builds_iff_first_argument_is_style (args : list string) :
  (∃ ts, EvBuildCommands srcSnapshotDir ts
           ∈ trace (handler Command BuildCommands srcSnapshotDir w args))
  ↔ builder_of args ∈ ["pg_dump"; ""; "docker"; "kubectl"].
Proof.
  split.
  - intros [ts Hin].
    destruct (decide (builder_of args ∈ ["pg_dump"; ""; "docker"; "kubectl"])) as [|Hb]; [done|].
    destruct (handler_rejected args Hb) as [Htrace _].
    rewrite Htrace in Hin. by apply elem_of_nil in Hin.
  - intros Hb. destruct (switch_builder_accepts _ Hb) as (key & cb & Hsw).
    destruct (handler_accepted args key cb Hsw) as (ts & _ & ->).
    exists ts. destruct (BuildCommands _ _ _); unfold trace; simpl; in_trace.
Qed.

(** X2: no run ever opens or decodes a targets file, and no run returns the
    "invalid targets file" error: a builder the [switch] accepts stops the
    flag parsing, so [-targets] is [auto] and the key is a predefined one. *)
Theorem X2_targets_file_never_read (args : list string) :
  filter (λ e, is_file_read e = true)
    (trace (handler Command BuildCommands srcSnapshotDir w args)) = [] ∧
  (∀ err a,
     result (handler Command BuildCommands srcSnapshotDir w args)
     ≠ Return (Some (errors.Wrapf err "invalid targets file %q" a))).
Proof.
  destruct (decide (builder_of args ∈ ["pg_dump"; ""; "docker"; "kubectl"])) as [Hb|Hb].
  - destruct (switch_builder_accepts _ Hb) as (key & cb & Hsw).
    destruct (handler_accepted args key cb Hsw) as (ts & _ & ->).
    by destruct (BuildCommands _ _ _).
  - destruct (handler_rejected args Hb) as [-> Hres].
    split; [done|]. intros err a.
    destruct Hres as [-> |[-> | ->]]; done.
Qed.

(** X3: when [BuildCommands] fails for the builder and the targets the
    handler resolved, the handler returns that error wrapped as "failed to
    build commands"; it has announced the targets, and it neither creates
    the directory nor writes anything more. *)
Theorem X3_build_failure (args : list string) (key : string) (cb : CommandBuilder)
    (ts : Targets) (err : errors.error) :
  switch_builder (E:=Event) Command (builder_of args) "docker" = ([], Continue (key, cb)) →
  predefinedDatabaseDumpTargets !! key = Some ts →
  BuildCommands srcSnapshotDir cb ts = inl err →
  handler Command BuildCommands srcSnapshotDir w args
  = ([EvWriteLine (Emojif EmojiInfo "Using predefined targets for %s environments" key);
      EvBuildCommands srcSnapshotDir ts],
     Return (Some (errors.Wrap err "failed to build commands"))).
Proof.
  intros Hsw Hts Hbuild.
  destruct (handler_accepted args key cb Hsw) as (ts' & Hts' & ->).
  assert (ts' = ts) as -> by congruence. by rewrite Hbuild.
Qed.

(** X4: when [BuildCommands] succeeds, the run is, in this order: the line
    announcing the targets, the building, one [os.MkdirAll] of the snapshot
    directory with [os.ModePerm], the block with its header, the commands
    joined by line feeds after a leading line feed, the closing of the block,
    and the note; the handler returns [nil]. *)
Theorem X4_successful_run (args : list string) (key : string) (cb : CommandBuilder)
    (ts : Targets) (commands : list string) :
  switch_builder (E:=Event) Command (builder_of args) "docker" = ([], Continue (key, cb)) →
  predefinedDatabaseDumpTargets !! key = Some ts →
  BuildCommands srcSnapshotDir cb ts = inr commands →
  handler Command BuildCommands srcSnapshotDir w args
  = ([EvWriteLine (Emojif EmojiInfo "Using predefined targets for %s environments" key);
      EvBuildCommands srcSnapshotDir ts;
      EvMkdirAll srcSnapshotDir ModePerm;
      EvBlock (Emoji EmojiSuccess "Run these commands to generate the required database dumps:");
      EvBlockWrite (LF +:+ Join commands LF);
      EvBlockClose;
      EvWriteLine (Styledf StyleSuggestion "Note that you may need to do some additional setup, such as authentication, beforehand.")],
     Return None).
Proof.
  intros Hsw Hts Hbuild.
  destruct (handler_accepted args key cb Hsw) as (ts' & Hts' & ->).
  assert (ts' = ts) as -> by congruence. by rewrite Hbuild.
Qed.

(** X5: the command builder of every accepted style never returns an
    error, and its command contains [pgdump.Command(t)] unchanged; for the
    direct style and an empty target it is that command alone. *)
Theorem X5_command_builders_never_fail (builder key : string) (cb : CommandBuilder)
    (t : Target) :
  switch_builder (E:=Event) Command builder "docker" = ([], Continue (key, cb)) →
  (cb t).2 = None ∧
  embeds (Command t) (cb t).1 ∧
  (builder ∈ ["pg_dump"; ""] → target t = "" → (cb t).1 = Command t).
Proof.
  intros Hsw.
  apply switch_builder_inv in Hsw as [(Hb & -> & ->)|[(-> & -> & ->)|(-> & -> & ->)]].
  - unfold commandBuilder_pg_dump.
    destruct (String.eqb_spec (target t) "") as [Htarget|Htarget]; simpl.
    + split; [done|]. split; [|done].
      exists "", "". by rewrite string_app_nil_r.
    + split; [done|]. split; [|done].
      exists "", (" --host=" +:+ target t). done.
  - split; [done|]. split; [|intros Hb; revert Hb; not_in_trace].
    simpl. exists ("docker exec -it " +:+ target t +:+ " sh -c '"), "'".
    by rewrite !string_app_assoc.
  - split; [done|]. split; [|intros Hb; revert Hb; not_in_trace].
    simpl. exists ("kubectl exec -it " +:+ target t +:+ " -- bash -c '"), "'".
    by rewrite !string_app_assoc.
Qed.

(** X6: the results the handler can have. It never panics and never
    returns an error of the flag parsing, which ends the process with status
    0 or 2; what it returns is [nil], the unknown-template-type error for its
    first argument, or an error of [BuildCommands] wrapped as "failed to
    build commands". *)
Theorem X6_results (args : list string) :
  let r := result (handler Command BuildCommands srcSnapshotDir w args) in
  r = OsExit 0 ∨ r = OsExit 2 ∨
  r = Return (Some (errors.Newf "unknown or invalid template type %q" (builder_of args))) ∨
  (∃ cb ts err, BuildCommands srcSnapshotDir cb ts = inl err ∧
                r = Return (Some (errors.Wrap err "failed to build commands"))) ∨
  r = Return None.
Proof.
  simpl.
  destruct (decide (builder_of args ∈ ["pg_dump"; ""; "docker"; "kubectl"])) as [Hb|Hb].
  - destruct (switch_builder_accepts _ Hb) as (key & cb & Hsw).
    destruct (handler_accepted args key cb Hsw) as (ts & _ & ->).
    destruct (BuildCommands _ _ _) as [err|commands] eqn:Hbuild; simpl.
    + do 3 right. left. eauto.
    + by do 4 right.
  - destruct (handler_rejected args Hb) as [_ [-> |[-> | ->]]]; auto.
Qed.

End runs.

Lemma X3_witness :
  handler pgdump.Command BuildCommands_failing "src-snapshot" world_mkdir_ok
    ["kubectl"; "-targets=docker"]
  = ([EvWriteLine (Emojif EmojiInfo "Using predefined targets for %s environments" "k8s");
      EvBuildCommands "src-snapshot"
        (mkTargets (mkTarget "statefulset/pgsql" "sg" "sg" "sg")
                   (mkTarget "statefulset/codeintel-db" "sg" "sg" "sg")
                   (mkTarget "statefulset/codeinsights-db" "postgres" "postgres" "password"))],
     Return (Some (errors.Wrap (errors.Foreign "generating command") "failed to build commands"))).
Proof.
  apply (X3_build_failure pgdump.Command BuildCommands_failing "src-snapshot" world_mkdir_ok
           ["kubectl"; "-targets=docker"] "k8s" (commandBuilder_kubectl pgdump.Command)).
  - reflexivity.
  - reflexivity.
  - reflexivity.
Defined.

Lemma X4_witness :
  run world_mkdir_fails ["pg_dump"]
  = ([EvWriteLine (Emojif EmojiInfo "Using predefined targets for %s environments" "local");
      EvBuildCommands "src-snapshot"
        (mkTargets (mkTarget "" "sg" "sg" "sg") (mkTarget "" "sg" "sg" "sg")
                   (mkTarget "" "postgres" "postgres" "password"));
      EvMkdirAll "src-snapshot" ModePerm;
      EvBlock (Emoji EmojiSuccess "Run these commands to generate the required database dumps:");
      EvBlockWrite (LF +:+ Join
        ["PGPASSWORD=sg pg_dump --username=sg --dbname=sg";
         "PGPASSWORD=sg pg_dump --username=sg --dbname=sg";
         "PGPASSWORD=password pg_dump --username=postgres --dbname=postgres"] LF);
      EvBlockClose;
      EvWriteLine (Styledf StyleSuggestion "Note that you may need to do some additional setup, such as authentication, beforehand.")],
     Return None).
Proof.
  apply (X4_successful_run pgdump.Command pgdump.BuildCommands "src-snapshot"
           world_mkdir_fails ["pg_dump"] "local" (commandBuilder_pg_dump pgdump.Command)).
  - reflexivity.
  - reflexivity.
  - vm_compute. reflexivity.
Defined.

Lemma X5_witness :
  commandBuilder_pg_dump pgdump.Command (mkTarget "" "sg" "sg" "sg")
  = ("PGPASSWORD=sg pg_dump --username=sg --dbname=sg", None).
Proof.
  destruct (X5_command_builders_never_fail pgdump.Command "pg_dump" "local"
              (commandBuilder_pg_dump pgdump.Command) (mkTarget "" "sg" "sg" "sg"))
    as (Herr & _ & Hdirect).
  - reflexivity.
  - specialize (Hdirect ltac:(by left) eq_refl).
    destruct (commandBuilder_pg_dump pgdump.Command (mkTarget "" "sg" "sg" "sg")) as [c e].
    simpl in *. by subst.
Defined.

End snapshot_databases_runs.

(* ===================================================================== *)
(** ** Command lines of assignments [-name=value]                         *)
(* ===================================================================== *)

Module flag_assignments.

Import flag flag_facts.

Lemma substring_all (s : string) : substring 0 (String.length s) s = s.
Proof. induction s as [|c s IH]; simpl; [done|]. by rewrite IH. Qed.

Lemma cutAtEq_app (n v : string) :
  noEq n = true → cutAtEq (n +:+ "=" +:+ v) = Some (n, v).
Proof.
  induction n as [|c n IH]; intros Hn; [done|].
  simpl in Hn. apply andb_true_iff in Hn as [Hc Hn].
  change (String.String c n +:+ "=" +:+ v) with (String.String c (n +:+ "=" +:+ v)).
  simpl. rewrite (negb_true_iff _) in Hc. by rewrite Hc, (IH Hn).
Qed.

(** [parseOne] on an argument [-name=value] for a registered flag that is
    not boolean: the flag is set to what [Set] makes of the value. *)
Lemma parseOne_assign (f : FlagSet) (n v : string) (rest : list string) (fl : Flag)
    (s' : string) :
  args f = assignArg (n, v) :: rest →
  plainName n = true →
  formal f !! n = Some fl →
  Value_IsBoolFlag (FValue fl) = false →
  Value_Set (FValue fl) v = Some s' →
  parseOne f
  = (setFlag (withArgs f rest) n fl (mkValue s' (Value_Set (FValue fl)) false), true, None).
Proof.
  intros Hargs Hn Hfl Hbool Hset.
  destruct n as [|c n]; [done|].
  simpl in Hn. apply andb_true_iff in Hn as [Hc Hn].
  apply andb_true_iff in Hc as [Hminus Heq].
  rewrite (negb_true_iff _) in Hminus. rewrite (negb_true_iff _) in Heq.
  unfold parseOne. rewrite Hargs. unfold assignArg. simpl fst. simpl snd.
  change ("-" +:+ String.String c n +:+ "=" +:+ v)
    with (String.String "-" (String.String c (n +:+ "=" +:+ v))).
  cbn [String.length Nat.ltb Nat.leb byteAt String.get orb negb Ascii.eqb Bool.eqb andb].
  simpl. rewrite Hminus. simpl.
  rewrite substring_all. unfold byteAt. simpl. rewrite Hminus, Heq. simpl.
  rewrite (cutAtEq_app n v Hn). rewrite Hfl, Hbool. simpl.
  unfold Value_update. by rewrite Hset, Hbool.
Qed.

(** A command line of assignments to string flags, followed by positional
    arguments, parses without an error; each flag assigned has the last
    value given for it and is marked as set, the other flags are as before,
    and nothing of the positional arguments is looked at beyond the first. *)
Lemma parseLoop_assignments (asg : list (string * string)) (tail : list string)
    (fuel : nat) (f : FlagSet) :
  (List.length asg < fuel)%nat →
  args f = ((assignArg <$> asg) ++ tail)%list →
  positional tail = true →
  okFlags f asg →
  ∃ f', parseLoop fuel f = Some (f', None) ∧
        (∀ n, deref f' n = default (deref f n) (lastValue n asg)) ∧
        (∀ n, str <$> actual f' !! n
              = match lastValue n asg with
                | Some v => Some v
                | None => str <$> actual f !! n
                end).
Proof.
  revert fuel f. induction asg as [|[n v] asg IH]; intros fuel f Hfuel Hargs Htail Hok.
  - destruct fuel as [|fuel]; [simpl in Hfuel; lia|].
    exists f. rewrite parseLoop_S. unfold parseOne. rewrite Hargs. simpl.
    destruct tail as [|a rest]; [done|].
    simpl in Htail. unfold nonFlag in Htail. by rewrite Htail.
  - destruct fuel as [|fuel]; [simpl in Hfuel; lia|].
    destruct (Hok (n, v)) as (Hn & fl & Hfl & Hbool & Hset); [by left|].
    simpl in Hn, Hfl. rewrite fmap_cons in Hargs.
    rewrite parseLoop_S, (parseOne_assign f n v _ fl v Hargs Hn Hfl Hbool (Hset v)).
    set (fl' := mkFlag (Name fl) (Usage fl) (mkValue v (Value_Set (FValue fl)) false) (DefValue fl)).
    set (f1 := setFlag _ _ _ _).
    destruct (IH fuel f1) as (f' & Hloop & Hderef & Hact).
    + simpl in Hfuel. lia.
    + done.
    + done.
    + intros nv Hin. destruct (Hok nv) as (Hn' & fl0 & Hfl0 & Hstr0); [by right|].
      split; [done|]. unfold f1. simpl. rewrite lookup_insert.
      case_decide; [|eauto].
      exists fl'. split; [done|]. split; [done|]. intros s0. simpl. apply Hset.
    + exists f'. split; [done|]. split.
      * intros n0. rewrite Hderef. simpl.
        destruct (lastValue n0 asg); [done|]. simpl.
        unfold deref, f1. simpl. rewrite lookup_insert.
        destruct (String.eqb_spec n n0) as [->|Hne]; case_decide; done.
      * intros n0. rewrite Hact. simpl.
        destruct (lastValue n0 asg); [done|].
        unfold f1. simpl. rewrite lookup_insert.
        destruct (String.eqb_spec n n0) as [->|Hne]; case_decide; done.
Qed.

Lemma Parse_assignments (f : FlagSet) (asg : list (string * string)) (tail : list string) :
  positional tail = true →
  okFlags f asg →
  ∃ f', Parse f ((assignArg <$> asg) ++ tail)%list = (f', Returned None) ∧
        (∀ n, deref f' n = default (deref f n) (lastValue n asg)) ∧
        (∀ n, str <$> actual f' !! n
              = match lastValue n asg with
                | Some v => Some v
                | None => str <$> actual f !! n
                end).
Proof.
  intros Htail Hok.
  destruct (parseLoop_assignments asg tail (S (List.length ((assignArg <$> asg) ++ tail)%list))
              (withArgs f ((assignArg <$> asg) ++ tail)%list)) as (f' & Hloop & Hprops);
    [rewrite length_app, length_fmap; lia|done|done|done|].
  exists f'. split; [|done]. unfold Parse. by rewrite Hloop.
Qed.

End flag_assignments.

(* ===================================================================== *)
(** ** [src repos add-kvp]: the whole run                                 *)
(* ===================================================================== *)

Module add_kvp_runs.

Import flag flag_facts flag_assignments add_kvp add_kvp_facts.

Section runs.

Variable apiFlags : list Flag.
Variable w : World.

Lemma flagSet_okFlags (asg : list (string * string)) :
  (∀ nv, nv ∈ asg → nv.1 ∈ ["repo"; "key"; "value"]) →
  okFlags (flagSet apiFlags) asg.
Proof.
  intros Hnames [n v] Hin. specialize (Hnames _ Hin). simpl in *.
  unfold flagSet.
  repeat (apply elem_of_cons in Hnames as [->|Hnames];
          [split; [done|]; eexists;
           split; [apply api_NewFlags_lookup; vm_compute; reflexivity|by split]|]).
  by apply elem_of_nil in Hnames.
Qed.

Lemma flagSet_repo_default : deref (flagSet apiFlags) "repo" = "".
Proof.
  unfold deref, flagSet.
  by erewrite api_NewFlags_lookup by (vm_compute; reflexivity).
Qed.

(** X7: for a command line made of arguments [-repo=..], [-key=..],
    [-value=..] in any order and number, with any strings as values, the
    last value given for a flag counts. Without a non-empty repository the
    handler returns "repo is required", without a key "key is required", and
    otherwise it sends one request with the repository, the key, and the
    value, which is [nil] when no [-value=..] was given. Arguments that
    follow, starting with one that is not of the form of a flag, change
    nothing, even those that look like flags. *)
Theorem X7_assignments_reach_the_request (asg : list (string * string))
    (tail : list string) :
  Forall (λ nv, nv.1 ∈ ["repo"; "key"; "value"]) asg →
  positional tail = true →
  let h := handler apiFlags w ((assignArg <$> asg) ++ tail)%list in
  let repo := default "" (lastValue "repo" asg) in
  (repo = "" → h = ([], Return (Some (errors.New "error: repo is required")))) ∧
  (repo ≠ "" → lastValue "key" asg = None →
     h = ([], Return (Some (errors.New "error: key is required")))) ∧
  (repo ≠ "" → ∀ key, lastValue "key" asg = Some key →
     requests h = [variables repo key (lastValue "value" asg)]) ∧
  h = handler apiFlags w (assignArg <$> asg).
Proof.
  intros Hnames Htail. simpl. rewrite Forall_forall in Hnames.
  destruct (Parse_assignments (flagSet apiFlags) asg tail Htail (flagSet_okFlags asg Hnames))
    as (fs & HP & Hderef & Hact).
  destruct (Parse_assignments (flagSet apiFlags) asg [] eq_refl (flagSet_okFlags asg Hnames))
    as (fs0 & HP0 & Hderef0 & Hact0).
  rewrite app_nil_r in HP0.
  pose proof (Hderef "repo") as Hrepo. rewrite flagSet_repo_default in Hrepo.
  pose proof (Hderef0 "repo") as Hrepo0. rewrite flagSet_repo_default in Hrepo0.
  destruct (flagSet_key_default apiFlags) as [Hempty _].
  assert (∀ n, str <$> actual fs !! n = lastValue n asg) as Hset.
  { intros n. rewrite Hact, Hempty, lookup_empty. by destruct (lastValue n asg). }
  assert (∀ n, str <$> actual fs0 !! n = lastValue n asg) as Hset0.
  { intros n. rewrite Hact0, Hempty, lookup_empty. by destruct (lastValue n asg). }
  rewrite (handler_parsed apiFlags w _ fs HP), (handler_parsed apiFlags w _ fs0 HP0).
  rewrite Hrepo, Hrepo0, (Hset "value"), (Hset0 "value").
  pose proof (Hset "key") as Hkey. pose proof (Hset0 "key") as Hkey0.
  destruct (String.eqb_spec (default "" (lastValue "repo" asg)) "") as [Hr|Hr].
  { by repeat split. }
  split; [done|].
  destruct (actual fs !! "key") as [kf|], (actual fs0 !! "key") as [kf0|];
    simpl in Hkey, Hkey0; rewrite <-Hkey in Hkey0; simplify_eq.
  - split; [by intros _ Hnone; rewrite Hnone in Hkey|].
    split.
    + intros _ key Hsome. rewrite Hsome in Hkey. simplify_eq. simpl.
      by destruct (Do w query _) as [[] [err|]].
    + simpl. by rewrite Hkey0.
  - split; [done|]. split; [|done].
    intros _ key Hsome. by rewrite Hsome in Hkey.
Qed.

(** The run as a whole: either nothing was called, or one request was
    sent after the validation and its answer decided the rest. *)
Lemma handler_cases (args : list string) :
  (trace (handler apiFlags w args) = [] ∧
   (result (handler apiFlags w args) = OsExit 0 ∨
    result (handler apiFlags w args) = OsExit 2 ∨
    result (handler apiFlags w args) = Return (Some (errors.New "error: repo is required")) ∨
    result (handler apiFlags w args) = Return (Some (errors.New "error: key is required")))) ∨
  (∃ fs kf vars ok err line,
     Parse (flagSet apiFlags) args = (fs, Returned None) ∧
     deref fs "repo" ≠ "" ∧ actual fs !! "key" = Some kf ∧
     vars = variables (deref fs "repo") (str kf) (str <$> actual fs !! "value") ∧
     Do w query vars = (ok, err) ∧
     handler apiFlags w args
     = (if ok && bool_decide (err = None)
        then [EvDo query vars; EvPrintf line] else [EvDo query vars],
        Return err)).
Proof.
  destruct (Parse (flagSet apiFlags) args) as [fs e] eqn:HP.
  destruct (Parse_ExitOnError _ _ _ _ (flagSet_ExitOnError apiFlags) HP) as [->|He].
  - rewrite (handler_parsed apiFlags w args fs HP).
    destruct (String.eqb_spec (deref fs "repo") "") as [|Hrepo]; [left; auto|].
    destruct (actual fs !! "key") as [kf|] eqn:Hkey; [|left; auto 6].
    right. simpl.
    destruct (Do w query _) as [ok err] eqn:HDo.
    eexists fs, kf, _, ok, err, _.
    split; [done|]. split; [done|]. split; [done|]. split; [done|]. split; [exact HDo|].
    destruct ok, err; reflexivity.
  - left. unfold handler, parse. rewrite HP.
    destruct He as [-> | ->]; simpl; auto.
Qed.

(** X8: the answer to the request decides the rest. The handler returns
    the error of [Do] as it is, [nil] included, and it prints its
    confirmation exactly when [Do] answered [true] without an error; on
    [false] without an error it returns [nil] and prints nothing. *)
Theorem X8_answer_decides (args : list string) (vars : gmap string any) (ok : bool)
    (err : option errors.error) :
  requests (handler apiFlags w args) = [vars] →
  Do w query vars = (ok, err) →
  result (handler apiFlags w args) = Return err ∧
  (printed (handler apiFlags w args) = [] ↔ ok = false ∨ err ≠ None).
Proof.
  destruct (handler_cases args)
    as [[Htrace _]|(fs & kf & vars' & ok' & err' & line & _ & _ & _ & _ & HDo & ->)].
  { unfold requests. by rewrite Htrace. }
  intros Hreq HDo'.
  assert (vars = vars') as ->.
  { destruct ok', err'; unfold requests, trace in Hreq; simpl in Hreq; congruence. }
  rewrite HDo in HDo'. simplify_eq.
  split; [done|].
  destruct ok, err; unfold printed, trace; simpl; split; intros H; try done; auto.
  by destruct H.
Qed.

(** X9: no run sends more than one request; a request carries the
    mutation [query], and it is sent only when the flags parsed, the
    repository is not empty and [-key] was set. *)
Theorem X9_one_request_after_validation (args : list string) :
  (List.length (requests (handler apiFlags w args)) ≤ 1)%nat ∧
  (∀ q vars, EvDo q vars ∈ trace (handler apiFlags w args) → q = query) ∧
  (requests (handler apiFlags w args) ≠ [] →
     ∃ fs, Parse (flagSet apiFlags) args = (fs, Returned None) ∧
           deref fs "repo" ≠ "" ∧ is_Some (actual fs !! "key")).
Proof.
  destruct (handler_cases args)
    as [[Htrace _]|(fs & kf & vars & ok & err & line & HP & Hrepo & Hkey & _ & _ & ->)].
  - unfold requests. rewrite Htrace. simpl.
    split; [lia|]. split; [by intros ?? ?%elem_of_nil|done].
  - split; [destruct (ok && _); unfold requests, trace; simpl; lia|].
    split; [|eauto].
    intros q vars'. unfold trace. simpl.
    destruct (ok && _); intros Hin;
      repeat (apply elem_of_cons in Hin as [Hin|Hin]; [by simplify_eq|]);
      by apply elem_of_nil in Hin.
Qed.

(** X10: the results the handler can have. It never panics and never
    returns an error of the flag parsing, which ends the process with status
    0 or 2. Without a request it makes no call at all and the result is such
    an exit or one of the two validation errors; with a request the result is
    what [Do] answered. *)
Theorem X10_results (args : list string) :
  let h := handler apiFlags w args in
  (trace h = [] ∧
   (result h = OsExit 0 ∨ result h = OsExit 2 ∨
    result h = Return (Some (errors.New "error: repo is required")) ∨
    result h = Return (Some (errors.New "error: key is required")))) ∨
  (∃ vars ok err, requests h = [vars] ∧ Do w query vars = (ok, err) ∧
                  result h = Return err).
Proof.
  simpl.
  destruct (handler_cases args)
    as [?|(fs & kf & vars & ok & err & line & _ & _ & _ & _ & HDo & ->)]; [by left|].
  right. exists vars, ok, err.
  split; [by destruct (ok && _)|done].
Qed.

End runs.

Lemma X7_witness :
  requests (handler [] world_ok ["-repo=r"; "-key=a=b"; "-key=k"; "extra"; "-value=v"])
  = [variables "r" "k" None].
Proof.
  destruct (X7_assignments_reach_the_request [] world_ok
              [("repo", "r"); ("key", "a=b"); ("key", "k")] ["extra"; "-value=v"])
    as (_ & _ & Hreq & _).
  - repeat constructor.
  - reflexivity.
  - apply (Hreq ltac:(discriminate) "k"). reflexivity.
Defined.

Lemma X8_witness :
  result (handler [] world_down ["-repo=r"; "-key=k"])
  = Return (Some (errors.Foreign "connection refused")) ∧
  printed (handler [] world_down ["-repo=r"; "-key=k"]) = [].
Proof.
  destruct (X8_answer_decides [] world_down ["-repo=r"; "-key=k"]
              (variables "r" "k" None) false (Some (errors.Foreign "connection refused")))
    as [Hres Hprinted].
  - vm_compute. reflexivity.
  - reflexivity.
  - split; [exact Hres|]. apply Hprinted. by left.
Defined.

End add_kvp_runs.
